(** * generate_routes.py: a shallow embedding and its verified properties

    The script renders one Dart page per component name from a fixed
    [string.Template] and writes it below a fixed target directory.

    Modelling conventions.
    - A Python [str] is a Rocq [string].  The model is exact on ASCII text,
      which covers every literal of the script; characters above 127 are
      kept as they are by the case conversions.  A backslash in a Rocq
      string stands for itself, and a line feed is written as a line feed.
    - Paths are joined as on POSIX systems, with the separator [/].
    - A Python [dict] with string keys is a [gmap string string].
    - The file system and the console are an explicit [world]; every
      operating system call is logged, and an arbitrary environment
      predicate decides which calls are refused with an [OSError].
    - Exceptions are the left summand of the result of a computation; the
      world a computation leaves is kept when it raises one. *)

From Stdlib Require Import Ascii String List Arith Lia Bool.
From stdpp Require Import base gmap strings list fin_maps.

Local Open Scope stdpp_scope.

(** ** Python built-ins used by the script *)

Module Py.

(** Exceptions the script can end with. *)
Inductive io_op : Type :=
  | Makedirs (path : string)
  | OpenW (path : string)
  | WriteF (path : string) (data : string).

Inductive exn : Type :=
  | OSError (op : io_op)
  | KeyError (key : string)
  | ValueError (msg : string).

Definition result (A : Type) : Type := (exn + A)%type.

(** *** Characters *)

Definition is_upper (c : ascii) : bool :=
  (65 <=? nat_of_ascii c) && (nat_of_ascii c <=? 90).

Definition is_lower (c : ascii) : bool :=
  (97 <=? nat_of_ascii c) && (nat_of_ascii c <=? 122).

Definition is_digit (c : ascii) : bool :=
  (48 <=? nat_of_ascii c) && (nat_of_ascii c <=? 57).

Definition to_upper (c : ascii) : ascii :=
  if is_lower c then ascii_of_nat (nat_of_ascii c - 32) else c.

Definition to_lower (c : ascii) : ascii :=
  if is_upper c then ascii_of_nat (nat_of_ascii c + 32) else c.

Fixpoint str_lower (s : string) : string :=
  match s with
  | EmptyString => EmptyString
  | String c rest => String (to_lower c) (str_lower rest)
  end.

(** [str.capitalize()]: the first character upper-cased, all the others
    lower-cased. *)
Definition capitalize (s : string) : string :=
  match s with
  | EmptyString => EmptyString
  | String c rest => String (to_upper c) (str_lower rest)
  end.

(** *** [os.path.join] (POSIX flavour) *)

Definition starts_with_sep (s : string) : bool :=
  match s with
  | String "/" _ => true
  | _ => false
  end.

Fixpoint ends_with_sep (s : string) : bool :=
  match s with
  | EmptyString => false
  | String c EmptyString => if decide (c = "/"%char) then true else false
  | String _ rest => ends_with_sep rest
  end.

Definition join2 (path b : string) : string :=
  if starts_with_sep b then b
  else if (if decide (path = "") then true else ends_with_sep path) then path +:+ b
  else path +:+ "/" +:+ b.

Definition os_path_join (a : string) (p : list string) : string :=
  fold_left join2 p a.

(** *** [string.Template]

    After the delimiter [$] the pattern of [string.Template] tries, in
    this order: a second delimiter (group [escaped]); an identifier (group
    [named]); an identifier between braces (group [braced]); the empty
    string (group [invalid]).  An identifier is a letter or underscore
    followed by letters, digits and underscores, ASCII only and in either
    case (the class is written in lower case under [re.IGNORECASE]). *)

Definition id_start (c : ascii) : bool :=
  (if decide (c = "_"%char) then true else false) || is_lower c || is_upper c.

Definition id_char (c : ascii) : bool := id_start c || is_digit c.

(** Longest prefix made of identifier characters, and what follows it. *)
Fixpoint span_id (s : string) : string * string :=
  match s with
  | EmptyString => (EmptyString, EmptyString)
  | String c rest =>
      if id_char c then
        let '(i, r) := span_id rest in (String c i, r)
      else (EmptyString, s)
  end.

(** The identifier at the head of [s], if there is one. *)
Definition match_id (s : string) : option (string * string) :=
  match s with
  | String c _ => if id_start c then Some (span_id s) else None
  | EmptyString => None
  end.

(** A match of the pattern, by the group that took part in it. *)
Inductive match_obj : Type :=
  | MEscaped
  | MNamed (name : string)
  | MBraced (name : string)
  | MInvalid.

(** The alternatives of the pattern, tried in order on what follows a
    delimiter; the result carries the number of characters the match
    takes after the delimiter. *)
Definition match_after_delimiter (s : string) : match_obj * nat :=
  match s with
  | String "$" _ => (MEscaped, 1)
  | String "{" rest =>
      match match_id rest with
      | Some (i, String "}" _) => (MBraced i, String.length i + 2)
      | _ => (MInvalid, 0)
      end
  | _ =>
      match match_id s with
      | Some (i, _) => (MNamed i, String.length i)
      | None => (MInvalid, 0)
      end
  end.

(** What [pattern.sub] sees of a template, left to right: plain characters
    and matches. *)
Inductive piece : Type :=
  | Text (c : ascii)
  | Match (mo : match_obj).

(** The scan of the template.  [skip] counts the characters that the last
    match has already taken. *)
Fixpoint scan (skip : nat) (s : string) : list piece :=
  match s with
  | EmptyString => []
  | String c rest =>
      match skip with
      | S k => scan k rest
      | O =>
          if decide (c = "$"%char) then
            let '(mo, n) := match_after_delimiter rest in
            Match mo :: scan n rest
          else Text c :: scan 0 rest
      end
  end.

(** [pattern.sub(convert, template)]: each match is replaced by what
    [convert] returns for it; the first exception ends the call. *)
Fixpoint re_sub (convert : match_obj -> result string) (ps : list piece)
  : result string :=
  match ps with
  | [] => inr EmptyString
  | Text c :: ps' =>
      match re_sub convert ps' with
      | inr r => inr (String c r)
      | inl e => inl e
      end
  | Match mo :: ps' =>
      match convert mo with
      | inl e => inl e
      | inr v =>
          match re_sub convert ps' with
          | inr r => inr (v +:+ r)
          | inl e => inl e
          end
      end
  end.

(** The [convert] closure of [Template.substitute]. *)
Definition convert (mapping : gmap string string) (mo : match_obj)
  : result string :=
  match mo with
  | MNamed k | MBraced k =>
      match mapping !! k with
      | Some v => inr v
      | None => inl (KeyError k)
      end
  | MEscaped => inr "$"
  | MInvalid => inl (ValueError "Invalid placeholder in string")
  end.

(** [Template(template).substitute(mapping)]. *)
Definition substitute (template : string) (mapping : gmap string string)
  : result string :=
  re_sub (convert mapping) (scan 0 template).

End Py.

Import Py.

(** ** The world the script runs in *)

(** Directories and files by path, the lines printed so far, and the
    operating system calls attempted so far, oldest first. *)
Record world : Type := World {
  fs_dirs : gset string;
  fs_files : gmap string string;
  console : list string;
  syscalls : list io_op
}.

Definition set_dirs (f : gset string -> gset string) (w : world) : world :=
  World (f (fs_dirs w)) (fs_files w) (console w) (syscalls w).

Definition set_files (f : gmap string string -> gmap string string) (w : world)
  : world :=
  World (fs_dirs w) (f (fs_files w)) (console w) (syscalls w).

Definition log_syscall (op : io_op) (w : world) : world :=
  World (fs_dirs w) (fs_files w) (console w) (syscalls w ++ [op]).

Definition log_line (line : string) (w : world) : world :=
  World (fs_dirs w) (fs_files w) (console w ++ [line]) (syscalls w).

(** The leading segments of a path: ["a/b/c"] gives ["a"; "a/b"; "a/b/c"]. *)
Fixpoint segments_go (pre s : string) : list string :=
  match s with
  | EmptyString => [pre]
  | String c rest =>
      (if decide (c = "/"%char) then [pre] else [])
        ++ segments_go (pre +:+ String c EmptyString) rest
  end.

Definition segments (p : string) : list string :=
  filter (λ d, d ≠ EmptyString) (segments_go EmptyString p).

(** A computation reads and changes the world and ends with a value or
    with an exception; what it did before the exception stays done. *)
Definition M (A : Type) : Type := world -> result A * world.

Definition ret {A} (a : A) : M A := fun w => (inr a, w).

Definition bind {A B} (c : M A) (k : A -> M B) : M B :=
  fun w =>
    match c w with
    | (inr a, w') => k a w'
    | (inl e, w') => (inl e, w')
    end.

Definition lift {A} (r : result A) : M A := fun w => (r, w).

Declare Scope py_scope.
Delimit Scope py_scope with py.
Notation "x <- c ;; k" := (bind c (fun x => k))
  (at level 100, c at next level, right associativity) : py_scope.
Notation "c ;; k" := (bind c (fun _ => k))
  (at level 100, right associativity) : py_scope.

(** [for x in xs: body(x)] *)
Fixpoint for_each {A} (xs : list A) (body : A -> M unit) : M unit :=
  match xs with
  | [] => ret tt
  | x :: xs' => (body x ;; for_each xs' body)%py
  end.

(** ** The script *)

Definition COMPONENTS : list string :=
  [ "alert"; "badge"; "card"; "checkbox"; "divider"; "input"; "link";
    "loading"; "progress"; "radio"; "select"; "textarea"; "toggle" ].

Definition TARGET_DIR : string :=
  os_path_join "examples" ["deepyr_example"; "lib"; "pages"; "component_routes"].

Definition DART_TEMPLATE : string :=
"import 'package:jaspr/jaspr.dart';
import '../preview/$preview_file_name';

/// The page that showcases the `$component_name_pascal_case` component.
///
/// This is a simple wrapper component that renders the `${component_name_pascal_case}Preview`,
/// which contains all the interactive examples and code snippets.
class ${component_name_pascal_case}Page extends StatelessComponent {
  const ${component_name_pascal_case}Page({super.key});

  @override
  Iterable<Component> build(BuildContext context) sync* {
    yield ${component_name_pascal_case}Preview();
  }
}
".

(** The values the loop body derives from a component name. *)
Definition pascal_case_name (name : string) : string := capitalize name.

Definition file_name (name : string) : string := name +:+ "_page.dart".

Definition preview_file_name (name : string) : string := name +:+ "_preview.dart".

Definition file_path (name : string) : string :=
  os_path_join TARGET_DIR [file_name name].

Definition substitutions (name : string) : gmap string string :=
  <["file_name" := file_name name]>
    (<["preview_file_name" := preview_file_name name]>
       (<["component_name_pascal_case" := pascal_case_name name]> ∅)).

Definition content (name : string) : result string :=
  substitute DART_TEMPLATE (substitutions name).

Section Script.

(** The environment: which calls the operating system refuses, given all
    that happened before. *)
Variable denied : world -> io_op -> bool.

(** One operating system call: logged, then refused or carried out. *)
Definition syscall (op : io_op) (effect : world -> world) : M unit :=
  fun w =>
    if denied w op then (inl (OSError op), log_syscall op w)
    else (inr tt, effect (log_syscall op w)).

Definition os_path_exists (p : string) : M bool :=
  fun w =>
    (inr (bool_decide (p ∈ fs_dirs w) || bool_decide (is_Some (fs_files w !! p))), w).

Definition os_makedirs (p : string) : M unit :=
  syscall (Makedirs p) (set_dirs (λ d, d ∪ list_to_set (segments p))).

(** [open(p, "w")] creates the file or empties it. *)
Definition open_w (p : string) : M unit :=
  syscall (OpenW p) (set_files (λ f, <[p := EmptyString]> f)).

(** [f.write(data)] on a file just opened for writing. *)
Definition write (p data : string) : M unit :=
  syscall (WriteF p data) (set_files (λ f, <[p := data]> f)).

Definition print (line : string) : M unit :=
  fun w => (inr tt, log_line line w).

Local Open Scope py_scope.

(** The body of the loop, for one component name. *)
Definition generate_file (name : string) : M unit :=
  c <- lift (content name) ;;
  open_w (file_path name) ;;
  write (file_path name) c ;;
  print ("  -> Successfully created " +:+ file_path name).

(** [generate_files], with the list of names as an argument.  The two
    banners are the literals of the source: there the backslash is doubled,
    so that each stands for a backslash followed by the letter n. *)
Definition generate_files_for (components : list string) : M unit :=
  e <- os_path_exists TARGET_DIR ;;
  (if negb e then
     os_makedirs TARGET_DIR ;;
     print ("Created directory: " +:+ TARGET_DIR)
   else ret tt) ;;
  print "\nStarting file generation..." ;;
  for_each components generate_file ;;
  print "\nFile generation complete!\n".

Definition generate_files : M unit := generate_files_for COMPONENTS.

End Script.

Definition empty_world : world := World ∅ ∅ [] [].

Definition permissive : world -> io_op -> bool := fun _ _ => false.

(** ** Vocabulary of the statements *)

(** The template as text between placeholders. *)
Fixpoint texts (s : string) : list piece :=
  match s with
  | EmptyString => []
  | String c rest => Text c :: texts rest
  end.

(** The keys a template refers to, in order of occurrence. *)
Definition keys_of (ps : list piece) : list string :=
  flat_map (λ p, match p with
                 | Match (MNamed k) | Match (MBraced k) => [k]
                 | _ => []
                 end) ps.

Definition placeholders (template : string) : list string :=
  keys_of (scan 0 template).

(** A template is well formed when every delimiter in it starts an escape
    or a placeholder. *)
Definition valid_piece (p : piece) : bool :=
  match p with
  | Match MInvalid => false
  | _ => true
  end.

Definition well_formed (template : string) : bool :=
  forallb valid_piece (scan 0 template).

(** Literal substitution: the text of the template with every placeholder
    replaced by the value bound to it and every doubled delimiter by one
    delimiter; nothing else changes and the values are not read again. *)
Definition expansion (mapping : gmap string string) (p : piece) : string :=
  match p with
  | Text c => String c EmptyString
  | Match MEscaped => "$"
  | Match (MNamed k) | Match (MBraced k) => default EmptyString (mapping !! k)
  | Match MInvalid => EmptyString
  end.

Definition expand (mapping : gmap string string) (ps : list piece) : string :=
  fold_right (λ p r, expansion mapping p +:+ r) EmptyString ps.

Definition literal_substitution (template : string)
    (mapping : gmap string string) : string :=
  expand mapping (scan 0 template).

(** The text of [DART_TEMPLATE] around its six placeholders. *)
Definition TEXT_0 : string :=
"import 'package:jaspr/jaspr.dart';
import '../preview/".

Definition TEXT_1 : string :=
"';

/// The page that showcases the `".

Definition TEXT_2 : string :=
"` component.
///
/// This is a simple wrapper component that renders the `".

Definition TEXT_3 : string :=
"Preview`,
/// which contains all the interactive examples and code snippets.
class ".

Definition TEXT_4 : string :=
"Page extends StatelessComponent {
  const ".

Definition TEXT_5 : string :=
"Page({super.key});

  @override
  Iterable<Component> build(BuildContext context) sync* {
    yield ".

Definition TEXT_6 : string :=
"Preview();
  }
}
".

Definition TEMPLATE_PIECES : list piece :=
  texts TEXT_0 ++ Match (MNamed "preview_file_name") ::
  texts TEXT_1 ++ Match (MNamed "component_name_pascal_case") ::
  texts TEXT_2 ++ Match (MBraced "component_name_pascal_case") ::
  texts TEXT_3 ++ Match (MBraced "component_name_pascal_case") ::
  texts TEXT_4 ++ Match (MBraced "component_name_pascal_case") ::
  texts TEXT_5 ++ Match (MBraced "component_name_pascal_case") ::
  texts TEXT_6.

(** The page of a component, as plain text. *)
Definition page (name : string) : string :=
  literal_substitution DART_TEMPLATE (substitutions name).

(** Python's [needle in hay] on strings. *)
Fixpoint str_in (needle hay : string) : bool :=
  String.prefix needle hay
  || match hay with
     | EmptyString => false
     | String _ rest => str_in needle rest
     end.

(** [hay.split(newline)] *)
Fixpoint lines_go (cur : string) (s : string) : list string :=
  match s with
  | EmptyString => [cur]
  | String c rest =>
      if decide (c = "010"%char) then cur :: lines_go EmptyString rest
      else lines_go (cur +:+ String c EmptyString) rest
  end.

Definition lines (s : string) : list string := lines_go EmptyString s.

(** The calls one name and a list of names lead to when nothing fails. *)
Definition calls_of (name : string) : list io_op :=
  [OpenW (file_path name); WriteF (file_path name) (page name)].

Definition calls_for (names : list string) : list io_op :=
  flat_map calls_of names.

(** The line printed after a file is written. *)
Definition progress_line (name : string) : string :=
  "  -> Successfully created " +:+ file_path name.

(** The world after a file was opened for writing, after it was written,
    and after the loop body ran for a name without failure. *)
Definition opened (p : string) (w : world) : world :=
  set_files (λ f, <[p := EmptyString]> f) (log_syscall (OpenW p) w).

Definition written (p data : string) (w : world) : world :=
  set_files (λ f, <[p := data]> f) (log_syscall (WriteF p data) w).

Definition generated (name : string) (w : world) : world :=
  log_line (progress_line name)
    (written (file_path name) (page name) (opened (file_path name) w)).

Definition generated_all (names : list string) (w : world) : world :=
  fold_left (λ w n, generated n w) names w.

(** The first and the last line of the console output. *)
Definition STARTING : string := "\nStarting file generation...".

Definition COMPLETE : string := "\nFile generation complete!\n".

(** What [os.path.exists(TARGET_DIR)] returns in a world. *)
Definition target_exists (w : world) : bool :=
  bool_decide (TARGET_DIR ∈ fs_dirs w)
  || bool_decide (is_Some (fs_files w !! TARGET_DIR)).

Definition CREATED : string := "Created directory: " +:+ TARGET_DIR.

(** The world when the loop starts: the directory is there and the first
    banner is printed. *)
Definition made_dir (w : world) : world :=
  log_line CREATED
    (set_dirs (λ d, d ∪ list_to_set (segments TARGET_DIR))
       (log_syscall (Makedirs TARGET_DIR) w)).

Definition prepared (w : world) : world :=
  log_line STARTING (if target_exists w then w else made_dir w).

(** The call that creates the directory, when the run makes it. *)
Definition dir_calls (w : world) : list io_op :=
  if target_exists w then [] else [Makedirs TARGET_DIR].

Definition dir_lines (w : world) : list string :=
  if target_exists w then [] else [CREATED].

(** The extension of the generated and of the referenced files. *)
Definition EXTENSION : string := ".dart".

(** [all_chars P s]: every character of [s] satisfies [P]. *)
Fixpoint all_chars (P : ascii → bool) (s : string) : bool :=
  match s with
  | EmptyString => true
  | String c rest => P c && all_chars P rest
  end.

(** An environment that refuses exactly the calls picked by [bad]. *)
Definition refusing (bad : io_op → bool) : world → io_op → bool :=
  fun _ op => bad op.

Definition is_open_of (p : string) (op : io_op) : bool :=
  match op with
  | OpenW q => bool_decide (q = p)
  | _ => false
  end.

Definition is_makedirs (op : io_op) : bool :=
  match op with
  | Makedirs _ => true
  | _ => false
  end.

(** ** Occurrences of a pattern in a text woven from copies of a string *)

Module Weave.

(** [a ++ s ++ t1 ++ s ++ t2 ++ ... ++ s ++ tn]: the fixed texts [a], [t1],
    ..., [tn] with a copy of [s] between each two of them. *)
Fixpoint weave (s a : list ascii) (ts : list (list ascii)) : list ascii :=
  match ts with
  | [] => a
  | t :: ts' => a ++ s ++ weave s t ts'
  end.

(** Where the copy of [s] starts that position [y] of the woven text is in
    or follows most closely. *)
Fixpoint copy_start (s a : list ascii) (ts : list (list ascii)) (y : nat) : nat :=
  match ts with
  | [] => length a
  | t :: ts' =>
      if decide (y < length a + length s) then length a
      else length a + length s + copy_start s t ts' (y - length a - length s)
  end.

(** The pattern [P] occurs in [X] at position [y]. *)
Definition occurs (P X : list ascii) (y : nat) : Prop :=
  take (length P) (drop y X) = P.

#[global] Instance occurs_dec (P X : list ascii) (y : nat) : Decision (occurs P X y) :=
  decide (take (length P) (drop y X) = P).

(** The positions of [X] at which [P] occurs. *)
Definition occurrences (P X : list ascii) : list nat :=
  filter (occurs P X) (seq 0 (S (length X))).

(** [P] from its position [m] on and [c] from its position [y] on differ at
    a position that both have. *)
Definition differs_at (P c : list ascii) (y m j : nat) : bool :=
  bool_decide (m + j < length P)
  && bool_decide (y + j < length c)
  && bool_decide (P !! (m + j) ≠ c !! (y + j)).

Definition clash (P c : list ascii) (y m : nat) : bool :=
  existsb (differs_at P c y m) (seq 0 (length P)).

(** No occurrence of [P] can start inside [c], whatever follows [c]. *)
Definition no_start (P c : list ascii) : bool :=
  forallb (λ y, clash P c y 0) (seq 0 (length c)).

(** No occurrence of [P] that started before [c] can go on into [c]. *)
Definition no_end (P c : list ascii) : bool :=
  forallb (λ m, clash P c 0 m) (seq 1 (length P - 1)).

(** A fixed text that no occurrence of [P] can touch. *)
Definition repels (P c : list ascii) : bool :=
  no_start P c && no_end P c && bool_decide (c ≠ []).

End Weave.

(** The characters of a string, and those of its lower-case form. *)
Definition chars (s : string) : list ascii := list_ascii_of_string s.

Definition lower_chars (s : string) : list ascii := chars (str_lower s).

(** The texts between the copies of the component name in a page, with the
    fixed end of the name of the preview file put before the second. *)
Definition PAGE_TEXTS : list string :=
  [ "_preview.dart" +:+ TEXT_1; TEXT_2; TEXT_3; TEXT_4; TEXT_5; TEXT_6 ].

(** What the console shows: [print] ends each line with a line feed. *)
Definition NEWLINE : string := String "010" EmptyString.

Definition stdout_text (printed : list string) : string :=
  fold_right (λ l r, l +:+ NEWLINE +:+ r) EmptyString printed.

(** How the loop body stops at a name [n] from the world [w1]: the call
    [op] is refused, after the calls [attempt] (which end with [op]) were
    made, and [w'] is the world left. *)
Inductive stopped (denied : world → io_op → bool) (w1 : world) (n : string)
  : io_op → list io_op → world → Prop :=
  | stopped_at_open :
      denied w1 (OpenW (file_path n)) = true →
      stopped denied w1 n
        (OpenW (file_path n))
        [OpenW (file_path n)]
        (log_syscall (OpenW (file_path n)) w1)
  | stopped_at_write :
      denied w1 (OpenW (file_path n)) = false →
      denied (opened (file_path n) w1) (WriteF (file_path n) (page n)) = true →
      stopped denied w1 n
        (WriteF (file_path n) (page n))
        (calls_of n)
        (log_syscall (WriteF (file_path n) (page n)) (opened (file_path n) w1)).

(** The environment refuses none of the calls of a run over [names] that
    starts in [w]: each call is looked at in the world it is made in. *)
Definition all_calls_permitted (denied : world → io_op → bool)
    (names : list string) (w : world) : Prop :=
  (target_exists w = false → denied w (Makedirs TARGET_DIR) = false)
  ∧ ∀ prev n rest, names = prev ++ n :: rest →
      denied (generated_all prev (prepared w)) (OpenW (file_path n)) = false
      ∧ denied (opened (file_path n) (generated_all prev (prepared w)))
               (WriteF (file_path n) (page n)) = false.

(** The capitalization step in the words of the specification: only the
    first character is upper-cased, the rest is left as it is. *)
Definition capitalize_first_letter (name : string) : string :=
  match name with
  | EmptyString => EmptyString
  | String c rest => String (to_upper c) rest
  end.

Definition no_upper_after_first (name : string) : bool :=
  match name with
  | EmptyString => true
  | String _ rest => all_chars (λ ch, negb (is_upper ch)) rest
  end.

(** [s.isascii()]: the strings on which the case conversions of the model
    are those of Python. *)
Definition isascii (s : string) : bool :=
  all_chars (λ ch, nat_of_ascii ch <? 128) s.

(** ** Vocabulary of the further properties *)

(** No character of [s] is the delimiter of templates. *)
Definition no_delimiter (s : string) : bool :=
  all_chars (λ ch, negb (bool_decide (ch = "$"%char))) s.

(** A path component that is not empty and has no separator in it. *)
Definition plain_component (s : string) : bool :=
  negb (bool_decide (s = EmptyString))
  && all_chars (λ ch, negb (bool_decide (ch = "/"%char))) s.

(** An identifier of templates: a letter or underscore, then letters,
    digits and underscores. *)
Definition is_identifier (k : string) : bool :=
  match k with
  | EmptyString => false
  | String c rest => id_start c && all_chars id_char rest
  end.

(** The text [b] starts with a character that would go on an identifier
    written before it. *)
Definition continues_identifier (b : string) : bool :=
  match b with
  | EmptyString => false
  | String c _ => id_char c
  end.

(** The rendering of a text [a] without delimiter, then a placeholder for
    [k], then a rest that renders to [rest]. *)
Definition rendered_placeholder (mapping : gmap string string)
    (a k : string) (rest : result string) : result string :=
  match mapping !! k with
  | None => inl (KeyError k)
  | Some v =>
      match rest with
      | inr r => inr (a +:+ v +:+ r)
      | inl e => inl e
      end
  end.

(** A template [t] reads as plain characters, doubled delimiters and
    placeholders for identifiers that [m] binds, and [r] is what these give
    in this order: the characters, one delimiter, the bound values. *)
Inductive renders (m : gmap string string) : string → string → Prop :=
  | renders_end :
      renders m EmptyString EmptyString
  | renders_char (c : ascii) (t r : string) :
      c ≠ "$"%char →
      renders m t r →
      renders m (String c t) (String c r)
  | renders_escape (t r : string) :
      renders m t r →
      renders m ("$$" +:+ t) ("$" +:+ r)
  | renders_braced (k v t r : string) :
      is_identifier k = true →
      m !! k = Some v →
      renders m t r →
      renders m ("${" +:+ k +:+ "}" +:+ t) (v +:+ r)
  | renders_named (k v t r : string) :
      is_identifier k = true →
      continues_identifier t = false →
      m !! k = Some v →
      renders m t r →
      renders m ("$" +:+ k +:+ t) (v +:+ r).

(** What follows a delimiter starts neither an escape nor a placeholder:
    nothing, or a character other than the delimiter, the opening brace and
    the characters an identifier starts with. *)
Definition stray (b : string) : bool :=
  match b with
  | EmptyString => true
  | String c _ =>
      negb (bool_decide (c = "$"%char))
      && negb (bool_decide (c = "{"%char))
      && negb (id_start c)
  end.

(** * Properties *)

(** Case analysis on the membership of a key in a list that is written out. *)
Ltac elem_cases H :=
  repeat (apply elem_of_cons in H as [->|H]);
  try (by apply elem_of_nil in H).

Example capitalize_alert : capitalize "alert" = "Alert".
Proof. reflexivity. Qed.

Example join_ex : os_path_join "out/" ["badge_page.dart"] = "out/badge_page.dart".
Proof. reflexivity. Qed.

Example join_ex2 : os_path_join "examples" ["deepyr_example"; "lib"] = "examples/deepyr_example/lib".
Proof. reflexivity. Qed.

Example scan_ex : scan 0 "a$x ${y}z$$" =
  [Text "a"; Match (MNamed "x"); Text " "; Match (MBraced "y"); Text "z"; Match MEscaped].
Proof. reflexivity. Qed.

Example scan_ex2 : scan 0 "${y $" = [Match MInvalid; Text "{"; Text "y"; Text " "; Match MInvalid].
Proof. reflexivity. Qed.

Example target_dir_ex : TARGET_DIR = "examples/deepyr_example/lib/pages/component_routes".
Proof. reflexivity. Qed.

(** ** Strings *)

Lemma str_app_nil_l (s : string) : "" +:+ s = s.
Proof. done. Qed.

Lemma str_app_cons (c : ascii) (s t : string) : String c s +:+ t = String c (s +:+ t).
Proof. done. Qed.

Lemma str_app_nil_r (s : string) : s +:+ "" = s.
Proof. induction s as [|c s IH]; [done | by rewrite str_app_cons, IH]. Qed.

Lemma str_app_assoc (s t u : string) : (s +:+ t) +:+ u = s +:+ t +:+ u.
Proof. induction s as [|c s IH]; [done | by rewrite !str_app_cons, IH]. Qed.

Lemma str_length_app (s t : string) :
  String.length (s +:+ t) = String.length s + String.length t.
Proof. induction s as [|c s IH]; [done | rewrite str_app_cons; simpl; by rewrite IH]. Qed.

Lemma str_app_inj_r (s1 s2 t : string) : s1 +:+ t = s2 +:+ t → s1 = s2.
Proof.
  revert s2. induction s1 as [|c s1 IH]; intros [|d s2] H.
  - done.
  - apply (f_equal String.length) in H. rewrite !str_length_app in H. simpl in H. lia.
  - apply (f_equal String.length) in H. rewrite !str_length_app in H. simpl in H. lia.
  - rewrite !str_app_cons in H. injection H as -> H. f_equal. by apply IH.
Qed.

(** ** Template rendering *)

Lemma re_sub_texts f (t : string) (ps : list piece) :
  re_sub f (texts t ++ ps) =
  match re_sub f ps with inr r => inr (t +:+ r) | inl e => inl e end.
Proof.
  induction t as [|c t IH]; simpl.
  - by destruct (re_sub f ps).
  - rewrite IH. by destruct (re_sub f ps).
Qed.

Lemma expand_texts m (t : string) (ps : list piece) :
  expand m (texts t ++ ps) = t +:+ expand m ps.
Proof.
  induction t as [|c t IH]; simpl; [done|].
  unfold expand in *. by rewrite IH.
Qed.

Lemma scan_template : scan 0 DART_TEMPLATE = TEMPLATE_PIECES.
Proof. vm_compute. reflexivity. Qed.

Lemma placeholders_template :
  placeholders DART_TEMPLATE =
  "preview_file_name" :: replicate 5 "component_name_pascal_case".
Proof. vm_compute. reflexivity. Qed.

Lemma well_formed_template : well_formed DART_TEMPLATE = true.
Proof. vm_compute. reflexivity. Qed.

(** A missing key is reported exactly when a placeholder is unbound, and
    for the first such placeholder. *)
Lemma re_sub_key_error m ps k :
  forallb valid_piece ps = true →
  re_sub (convert m) ps = inl (KeyError k) →
  k ∈ keys_of ps ∧ m !! k = None.
Proof.
  induction ps as [|[c|mo] ps IH]; simpl; intros Hv H.
  - done.
  - destruct (re_sub (convert m) ps) eqn:E; [|done].
    injection H as ->. by apply IH.
  - apply andb_prop in Hv as [Hmo Hv].
    destruct mo as [|i|i|]; simpl in *; try done.
    + destruct (re_sub (convert m) ps) eqn:E; [|done].
      injection H as ->. by apply IH.
    + destruct (m !! i) eqn:Ei.
      * destruct (re_sub (convert m) ps) eqn:E; [|done].
        injection H as ->. destruct (IH Hv eq_refl). split; [|done]. by right.
      * injection H as ->. split; [by left | done].
    + destruct (m !! i) eqn:Ei.
      * destruct (re_sub (convert m) ps) eqn:E; [|done].
        injection H as ->. destruct (IH Hv eq_refl). split; [|done]. by right.
      * injection H as ->. split; [by left | done].
Qed.

Lemma re_sub_unbound m ps k :
  forallb valid_piece ps = true →
  k ∈ keys_of ps → m !! k = None →
  ∃ k', re_sub (convert m) ps = inl (KeyError k').
Proof.
  induction ps as [|[c|mo] ps IH]; simpl; intros Hv Hk Hm.
  - by apply elem_of_nil in Hk.
  - destruct (IH Hv Hk Hm) as [k' ->]. by exists k'.
  - apply andb_prop in Hv as [Hmo Hv].
    destruct mo as [|i|i|]; simpl in *; try done.
    + destruct (IH Hv Hk Hm) as [k' ->]. by exists k'.
    + destruct (m !! i) eqn:Ei; [|by exists i].
      apply elem_of_cons in Hk as [->|Hk]; [congruence|].
      destruct (IH Hv Hk Hm) as [k' ->]. by exists k'.
    + destruct (m !! i) eqn:Ei; [|by exists i].
      apply elem_of_cons in Hk as [->|Hk]; [congruence|].
      destruct (IH Hv Hk Hm) as [k' ->]. by exists k'.
Qed.

Lemma re_sub_bound m ps :
  forallb valid_piece ps = true →
  (∀ k, k ∈ keys_of ps → is_Some (m !! k)) →
  re_sub (convert m) ps = inr (expand m ps).
Proof.
  induction ps as [|[c|mo] ps IH]; simpl; intros Hv Hk.
  - done.
  - by rewrite (IH Hv Hk).
  - apply andb_prop in Hv as [Hmo Hv].
    destruct mo as [|i|i|]; simpl in *; try done.
    + by rewrite (IH Hv Hk).
    + destruct (Hk i) as [v Hi]; [by left|]. rewrite Hi. simpl.
      rewrite IH; [done..|]. intros k ?. apply Hk. by right.
    + destruct (Hk i) as [v Hi]; [by left|]. rewrite Hi. simpl.
      rewrite IH; [done..|]. intros k ?. apply Hk. by right.
Qed.

Lemma expand_match m mo (ps : list piece) :
  expand m (Match mo :: ps) = expansion m (Match mo) +:+ expand m ps.
Proof. done. Qed.

Lemma expand_texts_only m (t : string) : expand m (texts t) = t.
Proof.
  rewrite <- (app_nil_r (texts t)), expand_texts. apply str_app_nil_r.
Qed.

Lemma lookup_preview_file_name name :
  substitutions name !! "preview_file_name" = Some (preview_file_name name).
Proof.
  unfold substitutions. rewrite lookup_insert_ne by done. by rewrite lookup_insert_eq.
Qed.

Lemma lookup_component_name_pascal_case name :
  substitutions name !! "component_name_pascal_case" = Some (pascal_case_name name).
Proof.
  unfold substitutions. do 2 (rewrite lookup_insert_ne by done).
  by rewrite lookup_insert_eq.
Qed.

Lemma substitutions_bound name k :
  k ∈ placeholders DART_TEMPLATE → is_Some (substitutions name !! k).
Proof.
  rewrite placeholders_template. simpl. intros Hk. elem_cases Hk.
  all: first [ rewrite lookup_preview_file_name
             | rewrite lookup_component_name_pascal_case ]; by eexists.
Qed.

Lemma substitute_bound template m :
  well_formed template = true →
  (∀ k, k ∈ placeholders template → is_Some (m !! k)) →
  substitute template m = inr (literal_substitution template m).
Proof. apply re_sub_bound. Qed.

Lemma content_page name : content name = inr (page name).
Proof.
  exact (substitute_bound DART_TEMPLATE (substitutions name)
           well_formed_template (substitutions_bound name)).
Qed.

Lemma page_eq name :
  page name =
  TEXT_0 +:+ preview_file_name name +:+
  TEXT_1 +:+ pascal_case_name name +:+
  TEXT_2 +:+ pascal_case_name name +:+
  TEXT_3 +:+ pascal_case_name name +:+
  TEXT_4 +:+ pascal_case_name name +:+
  TEXT_5 +:+ pascal_case_name name +:+
  TEXT_6.
Proof.
  unfold page, literal_substitution. rewrite scan_template. unfold TEMPLATE_PIECES.
  rewrite (expand_texts _ TEXT_0), expand_match.
  rewrite (expand_texts _ TEXT_1), expand_match.
  rewrite (expand_texts _ TEXT_2), expand_match.
  rewrite (expand_texts _ TEXT_3), expand_match.
  rewrite (expand_texts _ TEXT_4), expand_match.
  rewrite (expand_texts _ TEXT_5), expand_match.
  rewrite (expand_texts_only _ TEXT_6).
  cbn [expansion].
  by rewrite lookup_preview_file_name, lookup_component_name_pascal_case.
Qed.

(** The template, cut at its placeholders. *)
Lemma template_eq :
  DART_TEMPLATE
  = TEXT_0 +:+ "$preview_file_name" +:+
    TEXT_1 +:+ "$component_name_pascal_case" +:+
    TEXT_2 +:+ "${component_name_pascal_case}" +:+
    TEXT_3 +:+ "${component_name_pascal_case}" +:+
    TEXT_4 +:+ "${component_name_pascal_case}" +:+
    TEXT_5 +:+ "${component_name_pascal_case}" +:+
    TEXT_6.
Proof. by vm_compute. Qed.

(** What rendering the template gives, by the two keys it reads. *)
Lemma substitute_template (mapping : gmap string string) :
  substitute DART_TEMPLATE mapping
  = match mapping !! "preview_file_name" with
    | None => inl (KeyError "preview_file_name")
    | Some p =>
        match mapping !! "component_name_pascal_case" with
        | None => inl (KeyError "component_name_pascal_case")
        | Some c =>
            inr (TEXT_0 +:+ p +:+ TEXT_1 +:+ c +:+ TEXT_2 +:+ c +:+
                 TEXT_3 +:+ c +:+ TEXT_4 +:+ c +:+ TEXT_5 +:+ c +:+ TEXT_6)
        end
    end.
Proof.
  unfold substitute. rewrite scan_template. unfold TEMPLATE_PIECES.
  rewrite (re_sub_texts _ TEXT_0). cbn [re_sub convert].
  rewrite (re_sub_texts _ TEXT_1). cbn [re_sub convert].
  rewrite (re_sub_texts _ TEXT_2). cbn [re_sub convert].
  rewrite (re_sub_texts _ TEXT_3). cbn [re_sub convert].
  rewrite (re_sub_texts _ TEXT_4). cbn [re_sub convert].
  rewrite (re_sub_texts _ TEXT_5). cbn [re_sub convert].
  rewrite <- (app_nil_r (texts TEXT_6)), (re_sub_texts _ TEXT_6).
  cbn [re_sub]. rewrite str_app_nil_r.
  destruct (mapping !! "preview_file_name") as [p|]; [|done].
  by destruct (mapping !! "component_name_pascal_case") as [c|].
Qed.

(** ** Paths *)

Lemma file_path_eq name :
  file_path name =
  if starts_with_sep (file_name name) then file_name name
  else TARGET_DIR +:+ "/" +:+ file_name name.
Proof.
  unfold file_path, os_path_join. simpl. unfold join2.
  by destruct (starts_with_sep (file_name name)).
Qed.

Lemma file_name_inj n1 n2 : file_name n1 = file_name n2 → n1 = n2.
Proof. apply str_app_inj_r. Qed.

Lemma file_path_inj n1 n2 : file_path n1 = file_path n2 → n1 = n2.
Proof.
  rewrite !file_path_eq.
  destruct (starts_with_sep (file_name n1)) eqn:E1,
           (starts_with_sep (file_name n2)) eqn:E2; intros H.
  - by apply file_name_inj.
  - rewrite H in E1. by vm_compute in E1.
  - rewrite <- H in E2. by vm_compute in E2.
  - apply String.app_inj in H. apply String.app_inj in H. by apply file_name_inj.
Qed.

(** ** A string followed by a pattern is not in a text woven from it *)

Module WeaveFacts.
Import Weave.

Section Pattern.

Context (P : list ascii) (HP : P ≠ []).

Lemma occurs_lookup X y :
  occurs P X y ↔ ∀ j, j < length P → X !! (y + j) = P !! j.
Proof.
  unfold occurs. split.
  - intros H j Hj.
    transitivity (take (length P) (drop y X) !! j); [|by rewrite H].
    rewrite lookup_take, lookup_drop. by case_decide.
  - intros H. apply list_eq. intros i. rewrite lookup_take.
    case_decide.
    + rewrite lookup_drop. by apply H.
    + symmetry. apply lookup_ge_None. lia.
Qed.

Lemma length_pattern : 1 ≤ length P.
Proof. destruct P; [done|]. simpl. lia. Qed.

Lemma occurs_bound X y : occurs P X y → y + length P ≤ length X.
Proof.
  intros H. pose proof (f_equal length H) as Hl.
  rewrite length_take, length_drop in Hl.
  pose proof length_pattern. lia.
Qed.

Lemma clash_spec c y m :
  clash P c y m = true →
  ∃ j, m + j < length P ∧ y + j < length c ∧ P !! (m + j) ≠ c !! (y + j).
Proof.
  unfold clash. intros (j & _ & H)%existsb_exists. exists j.
  unfold differs_at in H.
  apply andb_prop in H as [[H1 H2]%andb_prop H3].
  apply bool_decide_eq_true_1 in H1, H2, H3. done.
Qed.

Lemma no_start_spec c y :
  no_start P c = true → y < length c → clash P c y 0 = true.
Proof.
  unfold no_start. rewrite forallb_forall. intros H Hy. apply H.
  apply in_seq. lia.
Qed.

Lemma no_end_spec c m :
  no_end P c = true → 1 ≤ m → m < length P → clash P c 0 m = true.
Proof.
  unfold no_end. rewrite forallb_forall. intros H H1 Hm. apply H.
  apply in_seq. lia.
Qed.

(** No occurrence starts inside a repelling text. *)
Lemma not_in_text c rest y :
  no_start P c = true → y < length c → ¬ occurs P (c ++ rest) y.
Proof.
  intros Hc Hy Ho. rewrite occurs_lookup in Ho.
  destruct (clash_spec c y 0 (no_start_spec c y Hc Hy)) as (j & Hj & Hyj & Hne).
  simpl in *. specialize (Ho j Hj). rewrite lookup_app_l in Ho by done. congruence.
Qed.

(** An occurrence that starts in a copy of [s] ends in it, when a
    repelling text follows. *)
Lemma ends_in_copy s c rest x :
  no_end P c = true → x < length s →
  occurs P (s ++ c ++ rest) x → occurs P s x.
Proof.
  intros Hc Hx Ho. rewrite occurs_lookup in Ho. rewrite occurs_lookup.
  destruct (decide (x + length P ≤ length s)) as [Hfit|Hout].
  - intros j Hj. rewrite <- (Ho j Hj). by rewrite lookup_app_l by lia.
  - exfalso.
    destruct (clash_spec c 0 (length s - x)
                (no_end_spec c (length s - x) Hc ltac:(lia) ltac:(lia)))
      as (j & Hj & Hyj & Hne).
    specialize (Ho (length s - x + j) Hj).
    rewrite lookup_app_r in Ho by lia.
    rewrite lookup_app_l in Ho by lia.
    replace (x + (length s - x + j) - length s) with (0 + j) in Ho by lia.
    congruence.
Qed.

Lemma weave_head s a ts : ∃ rest, weave s a ts = a ++ rest.
Proof. destruct ts; simpl; [exists []; by rewrite app_nil_r | by eexists]. Qed.

(** Every occurrence of the pattern in the woven text lies within one of the
    copies of [s]. *)
Lemma occurs_in_copy s a ts y :
  no_start P a = true →
  Forall (λ t, no_start P t = true ∧ no_end P t = true) ts →
  occurs P (weave s a ts) y →
  copy_start s a ts y ≤ y ∧ occurs P s (y - copy_start s a ts y).
Proof.
  revert a y. induction ts as [|t ts IH]; intros a y Ha Hts Ho; simpl in *.
  - exfalso. destruct (decide (y < length a)) as [Hy|Hy].
    + apply (not_in_text a [] y Ha Hy). by rewrite app_nil_r.
    + apply occurs_bound in Ho. pose proof length_pattern. lia.
  - apply Forall_cons in Hts as [[Ht1 Ht2] Hts].
    destruct (decide (y < length a + length s)) as [Hy|Hy].
    + destruct (decide (y < length a)) as [Hya|Hya].
      { exfalso. by apply (not_in_text a (s ++ weave s t ts) y Ha Hya). }
      split; [lia|].
      destruct (weave_head s t ts) as [rest Hrest]. rewrite Hrest in Ho.
      apply (ends_in_copy s t rest); [done|lia|].
      rewrite occurs_lookup in Ho. rewrite occurs_lookup. intros j Hj.
      rewrite <- (Ho j Hj). rewrite (lookup_app_r a) by lia. f_equal. lia.
    + assert (Ho' : occurs P (weave s t ts) (y - length a - length s)).
      { rewrite occurs_lookup in Ho. rewrite occurs_lookup. intros j Hj.
        rewrite <- (Ho j Hj). rewrite (lookup_app_r a) by lia.
        rewrite (lookup_app_r s) by lia. f_equal. lia. }
      destruct (IH t _ Ht1 Hts Ho') as [Hle Hoc]. split; [lia|].
      replace (y - (length a + length s
                    + copy_start s t ts (y - length a - length s)))
        with (y - length a - length s
              - copy_start s t ts (y - length a - length s)) by lia.
      done.
Qed.

Lemma copy_start_ge s a ts y : length a ≤ copy_start s a ts y.
Proof. destruct ts; simpl; [done|]. case_decide; lia. Qed.

(** Two positions lie in the same copy, or in copies that start more than
    the length of [s] apart. *)
Lemma copy_start_apart s a ts y y' :
  Forall (λ t, t ≠ []) ts → y ≤ y' →
  copy_start s a ts y = copy_start s a ts y'
  ∨ copy_start s a ts y + length s + 1 ≤ copy_start s a ts y'.
Proof.
  revert a y y'. induction ts as [|t ts IH]; intros a y y' Hts Hy; simpl.
  - by left.
  - apply Forall_cons in Hts as [Ht Hts]. repeat case_decide; try lia.
    + right. pose proof (copy_start_ge s t ts (y' - length a - length s)).
      destruct t; [done|]. simpl in *. lia.
    + destruct (IH t (y - length a - length s) (y' - length a - length s) Hts)
        as [->|?]; [lia|by left|right; lia].
Qed.

Lemma NoDup_occurrences X : NoDup (occurrences P X).
Proof. apply NoDup_filter, NoDup_seq. Qed.

Lemma elem_of_occurrences X y : y ∈ occurrences P X ↔ occurs P X y.
Proof.
  unfold occurrences. rewrite list_elem_of_filter, elem_of_seq.
  split; [by intros [? _]|]. intros H. split; [done|].
  apply occurs_bound in H. lia.
Qed.

(** The woven text does not contain [s] followed by the pattern. *)
Lemma weave_avoids s a ts pre post :
  no_start P a = true →
  Forall (λ t, repels P t = true) ts →
  weave s a ts ≠ pre ++ (s ++ P) ++ post.
Proof.
  intros Ha Hts Heq.
  assert (Hts1 : Forall (λ t, no_start P t = true ∧ no_end P t = true) ts).
  { eapply Forall_impl; [exact Hts|]. simpl. intros t Ht. unfold repels in Ht.
    by apply andb_prop in Ht as [[? ?]%andb_prop _]. }
  assert (Hts2 : Forall (λ t, t ≠ []) ts).
  { eapply Forall_impl; [exact Hts|]. simpl. intros t Ht. unfold repels in Ht.
    apply andb_prop in Ht as [_ Ht]. by apply bool_decide_eq_true_1 in Ht. }
  set (q := length pre). set (n := length s).
  set (f := λ x, q + x - copy_start s a ts (q + x)).
  set (l := occurrences P s ++ [n]).
  (* every occurrence in [s ++ P] is an occurrence in the woven text *)
  assert (Hocc : ∀ x, x ∈ l → occurs P (weave s a ts) (q + x)).
  { intros x Hx. rewrite Heq, occurs_lookup. intros j Hj.
    rewrite lookup_app_r by (unfold q; lia).
    replace (q + x + j - length pre) with (x + j) by (unfold q; lia).
    rewrite lookup_app_l
      by (rewrite length_app; apply elem_of_app in Hx as [Hx|Hx];
          [apply elem_of_occurrences, occurs_bound in Hx; lia
          |apply list_elem_of_singleton in Hx; unfold n in Hx; lia]).
    apply elem_of_app in Hx as [Hx|Hx].
    - apply elem_of_occurrences in Hx. pose proof (occurs_bound _ _ Hx).
      rewrite occurs_lookup in Hx. rewrite lookup_app_l by lia. by apply Hx.
    - apply list_elem_of_singleton in Hx as ->.
      rewrite lookup_app_r by (unfold n; lia). f_equal. unfold n. lia. }
  assert (Hin : ∀ x, x ∈ l → copy_start s a ts (q + x) ≤ q + x ∧ f x ∈ occurrences P s).
  { intros x Hx. destruct (occurs_in_copy s a ts (q + x) Ha Hts1 (Hocc x Hx)).
    split; [done|]. by apply elem_of_occurrences. }
  assert (Hl : ∀ x, x ∈ l → x ≤ n).
  { intros x [Hx|Hx]%elem_of_app.
    - apply elem_of_occurrences, occurs_bound in Hx. unfold n. lia.
    - apply list_elem_of_singleton in Hx. lia. }
  assert (Hnd : NoDup l).
  { apply NoDup_app. split; [apply NoDup_occurrences|]. split; [|apply NoDup_singleton].
    intros x Hx ->%list_elem_of_singleton.
    apply elem_of_occurrences, occurs_bound in Hx.
    pose proof length_pattern. unfold n in Hx. lia. }
  assert (Hinj : ∀ x y, x ∈ l → y ∈ l → f x = f y → x = y).
  { assert (Hlt : ∀ x y, x ∈ l → y ∈ l → x ≤ y → f x = f y → x = y).
    { intros x y Hx Hy Hxy Hf. unfold f in Hf.
      destruct (Hin x Hx) as [Hcx _]. destruct (Hin y Hy) as [Hcy _].
      pose proof (Hl y Hy).
      destruct (copy_start_apart s a ts (q + x) (q + y) Hts2 ltac:(lia));
        unfold n in *; lia. }
    intros x y Hx Hy Hf. destruct (decide (x ≤ y)).
    - by apply Hlt.
    - symmetry. apply Hlt; [done..|lia|done]. }
  assert (Hlen : length (f <$> l) ≤ length (occurrences P s)).
  { apply submseteq_length, NoDup_submseteq.
    - by apply NoDup_fmap_2_strong.
    - intros z (x & -> & Hx)%list_elem_of_fmap. by apply Hin. }
  rewrite length_fmap in Hlen. unfold l in Hlen. rewrite length_app in Hlen.
  simpl in Hlen. lia.
Qed.

End Pattern.

End WeaveFacts.

(** ** The name of the generated file is not in its content *)

Lemma chars_app (s t : string) : chars (s +:+ t) = chars s ++ chars t.
Proof.
  induction s as [|c s IH]; [done|].
  rewrite str_app_cons. unfold chars in *. simpl. by rewrite IH.
Qed.

Lemma str_lower_app (s t : string) :
  str_lower (s +:+ t) = str_lower s +:+ str_lower t.
Proof.
  induction s as [|c s IH]; [done|].
  rewrite str_app_cons. simpl. by rewrite IH, str_app_cons.
Qed.

Lemma lower_chars_app (s t : string) :
  lower_chars (s +:+ t) = lower_chars s ++ lower_chars t.
Proof. unfold lower_chars. by rewrite str_lower_app, chars_app. Qed.

Lemma to_lower_to_upper (c : ascii) : to_lower (to_upper c) = to_lower c.
Proof. by destruct c as [[] [] [] [] [] [] [] []]. Qed.

Lemma to_lower_to_lower (c : ascii) : to_lower (to_lower c) = to_lower c.
Proof. by destruct c as [[] [] [] [] [] [] [] []]. Qed.

Lemma str_lower_str_lower (s : string) : str_lower (str_lower s) = str_lower s.
Proof.
  induction s as [|c s IH]; [done|]. simpl. by rewrite to_lower_to_lower, IH.
Qed.

Lemma str_lower_capitalize (s : string) : str_lower (capitalize s) = str_lower s.
Proof.
  destruct s as [|c s]; [done|]. simpl.
  by rewrite to_lower_to_upper, str_lower_str_lower.
Qed.

Lemma prefix_spec (a b : string) :
  String.prefix a b = true → ∃ post, b = a +:+ post.
Proof.
  revert b. induction a as [|c a IH]; intros b H.
  - by exists b.
  - destruct b as [|d b]; [done|]. simpl in H.
    destruct (ascii_dec c d) as [->|]; [|done].
    destruct (IH b H) as [post ->]. by exists post.
Qed.

Lemma str_in_eq (needle hay : string) :
  str_in needle hay =
  String.prefix needle hay
  || match hay with
     | EmptyString => false
     | String _ rest => str_in needle rest
     end.
Proof. by destruct hay. Qed.

Lemma str_in_spec (needle hay : string) :
  str_in needle hay = true → ∃ pre post, hay = pre +:+ needle +:+ post.
Proof.
  induction hay as [|c hay IH]; rewrite str_in_eq; intros H.
  - apply orb_prop in H as [H|H]; [|done].
    apply prefix_spec in H as [post ->]. by exists "", post.
  - apply orb_prop in H as [H|H].
    + apply prefix_spec in H as [post ->]. by exists "", post.
    + destruct (IH H) as (pre & post & ->). by exists (String c pre), post.
Qed.

Lemma lower_chars_capitalize (s : string) :
  lower_chars (capitalize s) = lower_chars s.
Proof. unfold lower_chars. by rewrite str_lower_capitalize. Qed.

Lemma lower_chars_page (name : string) :
  lower_chars (page name) =
  Weave.weave (lower_chars name) (lower_chars TEXT_0) (lower_chars <$> PAGE_TEXTS).
Proof.
  rewrite page_eq. unfold preview_file_name, pascal_case_name, PAGE_TEXTS.
  cbn [fmap list_fmap Weave.weave].
  rewrite !lower_chars_app, !lower_chars_capitalize.
  by rewrite <- !app_assoc.
Qed.

Lemma page_texts_repel :
  Weave.no_start (chars "_page.dart") (lower_chars TEXT_0) = true
  ∧ Forall (λ t, Weave.repels (chars "_page.dart") t = true)
           (lower_chars <$> PAGE_TEXTS).
Proof.
  split; [by vm_compute|].
  unfold PAGE_TEXTS. cbn [fmap list_fmap].
  repeat (apply Forall_cons; split; [by vm_compute|]). apply Forall_nil_2.
Qed.

(** The content of a page never contains the name of the file it is
    written to. *)
Lemma file_name_not_in_page (name : string) :
  str_in (file_name name) (page name) = false.
Proof.
  destruct (str_in (file_name name) (page name)) eqn:E; [|done]. exfalso.
  apply str_in_spec in E as (pre & post & E).
  apply (f_equal lower_chars) in E.
  rewrite lower_chars_page in E. unfold file_name in E.
  rewrite !lower_chars_app in E.
  destruct page_texts_repel as [Ha Hts].
  by apply (WeaveFacts.weave_avoids (chars "_page.dart") ltac:(done)
              (lower_chars name) _ _ (lower_chars pre) (lower_chars post) Ha Hts).
Qed.

(** Rendering reads the mapping only at the keys of the template. *)
Lemma re_sub_agree (m1 m2 : gmap string string) (ps : list piece) :
  (∀ k, k ∈ keys_of ps → m1 !! k = m2 !! k) →
  re_sub (convert m1) ps = re_sub (convert m2) ps.
Proof.
  induction ps as [|[c|mo] ps IH]; simpl; intros H.
  - done.
  - by rewrite IH.
  - destruct mo as [|k|k|]; simpl in *.
    + by rewrite IH.
    + rewrite (H k) by (by left). rewrite IH; [done|].
      intros k' ?. apply H. by right.
    + rewrite (H k) by (by left). rewrite IH; [done|].
      intros k' ?. apply H. by right.
    + done.
Qed.

Lemma substitute_agree (m1 m2 : gmap string string) (template : string) :
  (∀ k, k ∈ placeholders template → m1 !! k = m2 !! k) →
  substitute template m1 = substitute template m2.
Proof. apply re_sub_agree. Qed.

Lemma file_name_not_placeholder : "file_name" ∉ placeholders DART_TEMPLATE.
Proof.
  rewrite placeholders_template. simpl. intros H.
  repeat (apply elem_of_cons in H as [H|H]; [done|]). by apply elem_of_nil in H.
Qed.

(** ** Running the script *)

Lemma run_eta {A} (x : result A * world) (r : result A) :
  x.1 = r → x = (r, x.2).
Proof. destruct x. simpl. by intros ->. Qed.

(** The world after the loop went through a list of names. *)

Lemma generated_all_snoc names n w :
  generated_all (names ++ [n]) w = generated n (generated_all names w).
Proof. unfold generated_all. by rewrite fold_left_app. Qed.

Lemma syscalls_generated_all names w :
  syscalls (generated_all names w) = syscalls w ++ calls_for names.
Proof.
  induction names as [|n names IH] using rev_ind.
  - simpl. by rewrite app_nil_r.
  - rewrite generated_all_snoc. simpl. rewrite IH.
    unfold calls_for. rewrite flat_map_app. simpl.
    by rewrite <- !app_assoc.
Qed.

Lemma console_generated_all names w :
  console (generated_all names w) = console w ++ map progress_line names.
Proof.
  induction names as [|n names IH] using rev_ind.
  - simpl. by rewrite app_nil_r.
  - rewrite generated_all_snoc. simpl. rewrite IH.
    by rewrite map_app, <- app_assoc.
Qed.

Lemma dirs_generated_all names w :
  fs_dirs (generated_all names w) = fs_dirs w.
Proof.
  induction names as [|n names IH] using rev_ind; [done|].
  rewrite generated_all_snoc. simpl. apply IH.
Qed.

Lemma files_generated name w :
  fs_files (generated name w) = <[file_path name := page name]> (fs_files w).
Proof. simpl. apply insert_insert_eq. Qed.

Lemma files_generated_all_in names w n :
  n ∈ names → fs_files (generated_all names w) !! file_path n = Some (page n).
Proof.
  induction names as [|m names IH] using rev_ind; intros Hn.
  - by apply elem_of_nil in Hn.
  - rewrite generated_all_snoc, files_generated.
    destruct (decide (m = n)) as [->|Hne].
    + apply lookup_insert_eq.
    + rewrite lookup_insert_ne.
      * apply IH. apply elem_of_app in Hn as [Hn|Hn]; [done|].
        apply list_elem_of_singleton in Hn. congruence.
      * intros H. by apply file_path_inj in H.
Qed.

Lemma files_generated_all_other names w p :
  p ∉ map file_path names →
  fs_files (generated_all names w) !! p = fs_files w !! p.
Proof.
  induction names as [|m names IH] using rev_ind; intros Hp; [done|].
  rewrite generated_all_snoc, files_generated.
  rewrite map_app in Hp. rewrite lookup_insert_ne.
  - apply IH. intros H. apply Hp. apply elem_of_app. by left.
  - intros <-. apply Hp. apply elem_of_app. right. simpl. by left.
Qed.

(** The world when the loop starts. *)

Lemma files_prepared w : fs_files (prepared w) = fs_files w.
Proof. unfold prepared. by destruct (target_exists w). Qed.

Lemma syscalls_prepared w : syscalls (prepared w) = syscalls w ++ dir_calls w.
Proof.
  unfold prepared, dir_calls. destruct (target_exists w); simpl; [|done].
  by rewrite app_nil_r.
Qed.

Lemma console_prepared w :
  console (prepared w) = console w ++ dir_lines w ++ [STARTING].
Proof.
  unfold prepared, dir_lines. destruct (target_exists w); simpl; [done|].
  by rewrite <- app_assoc.
Qed.

Create Rewrite HintDb world.

#[local] Hint Rewrite
  syscalls_generated_all console_generated_all dirs_generated_all
  files_prepared syscalls_prepared console_prepared : world.

(** The world the loop body leaves when it stops. *)
Lemma stopped_world denied w1 n op attempt w' :
  stopped denied w1 n op attempt w' →
  last attempt = Some op
  ∧ is_makedirs op = false
  ∧ (∃ w0, denied w0 op = true)
  ∧ (attempt = [OpenW (file_path n)] ∨ attempt = calls_of n)
  ∧ syscalls w' = syscalls w1 ++ attempt
  ∧ console w' = console w1
  ∧ fs_dirs w' = fs_dirs w1
  ∧ (∀ q, q ≠ file_path n → fs_files w' !! q = fs_files w1 !! q).
Proof.
  intros [Hd|Ho Hd]; simpl.
  - repeat split; eauto.
  - repeat split; eauto.
    + by rewrite <- app_assoc.
    + intros q Hq. by rewrite lookup_insert_ne.
Qed.

Section Runs.

Variable denied : world -> io_op -> bool.

(** The loop body, call by call. *)
Lemma generate_file_run name w :
  generate_file denied name w =
  let p := file_path name in
  if denied w (OpenW p) then (inl (OSError (OpenW p)), log_syscall (OpenW p) w)
  else if denied (opened p w) (WriteF p (page name))
       then (inl (OSError (WriteF p (page name))),
             log_syscall (WriteF p (page name)) (opened p w))
       else (inr tt, generated name w).
Proof.
  unfold generate_file, bind, lift. rewrite content_page.
  unfold open_w, write, print, syscall. simpl.
  destruct (denied w (OpenW (file_path name))); [done|].
  fold (opened (file_path name) w).
  by destruct (denied (opened (file_path name) w) (WriteF (file_path name) (page name))).
Qed.

Lemma generate_file_ok name w w' :
  generate_file denied name w = (inr tt, w') →
  w' = generated name w
  ∧ denied w (OpenW (file_path name)) = false
  ∧ denied (opened (file_path name) w) (WriteF (file_path name) (page name))
    = false.
Proof.
  rewrite generate_file_run. simpl.
  destruct (denied w _); [done|]. destruct (denied _ _); [done|].
  by intros [= <-].
Qed.

Lemma generate_file_raises name w e w' :
  generate_file denied name w = (inl e, w') →
  ∃ op attempt, e = OSError op ∧ stopped denied w name op attempt w'.
Proof.
  rewrite generate_file_run. simpl.
  destruct (denied w _) eqn:E1.
  { intros [= <- <-]. eexists _, _. split; [done|]. by constructor. }
  destruct (denied _ (WriteF _ _)) eqn:E2; [|done].
  intros [= <- <-]. eexists _, _. split; [done|]. by constructor.
Qed.

Lemma for_each_cons {A} (body : A → M unit) x xs w :
  for_each (x :: xs) body w =
  match body x w with
  | (inr _, w1) => for_each xs body w1
  | (inl e, w1) => (inl e, w1)
  end.
Proof. done. Qed.

(** The loop on a list cut in two. *)
Lemma for_each_app {A} (body : A → M unit) xs ys w :
  for_each (xs ++ ys) body w =
  match for_each xs body w with
  | (inr _, w1) => for_each ys body w1
  | (inl e, w1) => (inl e, w1)
  end.
Proof.
  revert w. induction xs as [|x xs IH]; intros w; simpl; [done|].
  unfold bind. destruct (body x w) as [[e|[]] w1]; [done|]. apply IH.
Qed.

(** A loop that ends with an exception ran its body without exception on
    the elements before the one that raised it. *)
Lemma for_each_raises {A} (body : A → M unit) xs w e w' :
  for_each xs body w = (inl e, w') →
  ∃ prev x rest w1,
    xs = prev ++ x :: rest ∧
    for_each prev body w = (inr tt, w1) ∧
    body x w1 = (inl e, w').
Proof.
  revert w. induction xs as [|x xs IH]; intros w; simpl.
  - unfold ret. congruence.
  - unfold bind. destruct (body x w) as [[e0|[]] w1] eqn:E.
    + intros [= -> ->]. by exists [], x, xs, w.
    + intros H. destruct (IH _ H) as (prev & y & rest & w2 & -> & Hd & Hy).
      exists (x :: prev), y, rest, w2. split; [done|]. split; [|done].
      simpl. unfold bind. by rewrite E.
Qed.

Lemma for_each_ok names w w' :
  for_each names (generate_file denied) w = (inr tt, w') →
  w' = generated_all names w.
Proof.
  revert w. induction names as [|n names IH]; intros w; simpl.
  - unfold ret. congruence.
  - unfold bind. destruct (generate_file denied n w) as [[e|[]] w1] eqn:E; [done|].
    apply generate_file_ok in E as [-> _]. apply IH.
Qed.

(** A loop that went through met no refusal. *)
Lemma for_each_permitted names w w' prev n rest :
  for_each names (generate_file denied) w = (inr tt, w') →
  names = prev ++ n :: rest →
  denied (generated_all prev w) (OpenW (file_path n)) = false
  ∧ denied (opened (file_path n) (generated_all prev w))
           (WriteF (file_path n) (page n)) = false.
Proof.
  intros H ->. rewrite for_each_app in H.
  destruct (for_each prev (generate_file denied) w) as [[e|[]] w1] eqn:E; [done|].
  apply for_each_ok in E as ->. rewrite for_each_cons in H.
  destruct (generate_file denied n _) as [[e|[]] w2] eqn:E; [done|].
  by apply generate_file_ok in E as (_ & ? & ?).
Qed.

(** The two ways the loop can end. *)
Lemma loop_outcome names w r w' :
  for_each names (generate_file denied) w = (r, w') →
  (r = inr tt ∧ w' = generated_all names w)
  ∨ ∃ prev n rest op attempt,
      names = prev ++ n :: rest ∧ r = inl (OSError op) ∧
      stopped denied (generated_all prev w) n op attempt w'.
Proof.
  destruct r as [e|[]]; intros H.
  - right. apply for_each_raises in H as (prev & n & rest & w1 & -> & Hd & Hn).
    apply for_each_ok in Hd as ->.
    apply generate_file_raises in Hn as (op & attempt & -> & Hs).
    by exists prev, n, rest, op, attempt.
  - left. split; [done|]. by apply for_each_ok.
Qed.

(** The three ways the run can end: at the creation of the directory, in
    the loop, or after the last banner. *)
Lemma run_outcome names w r w' :
  generate_files_for denied names w = (r, w') →
  (target_exists w = false ∧ denied w (Makedirs TARGET_DIR) = true ∧
   r = inl (OSError (Makedirs TARGET_DIR)) ∧
   w' = log_syscall (Makedirs TARGET_DIR) w)
  ∨ ((target_exists w = false → denied w (Makedirs TARGET_DIR) = false)
     ∧ ∃ r0 w0,
         for_each names (generate_file denied) (prepared w) = (r0, w0) ∧
         ((r0 = inr tt ∧ r = inr tt ∧ w' = log_line COMPLETE w0)
          ∨ (∃ e, r0 = inl e ∧ r = inl e ∧ w' = w0))).
Proof.
  unfold generate_files_for, bind, os_path_exists, os_makedirs, syscall, print, ret.
  fold (target_exists w). unfold prepared, made_dir.
  destruct (target_exists w) eqn:Et; simpl.
  - fold STARTING.
    destruct (for_each names (generate_file denied) (log_line STARTING w))
      as [[e|[]] w0] eqn:E; intros [= <- <-]; right; (split; [done|]);
      eexists _, _; (split; [done|]); [right; by exists e | by left].
  - destruct (denied w (Makedirs TARGET_DIR)) eqn:Ed.
    { intros [= <- <-]. by left. }
    fold STARTING CREATED.
    match goal with
    | |- context [for_each names (generate_file denied) ?w1] =>
        destruct (for_each names (generate_file denied) w1) as [[e|[]] w0] eqn:E
    end; intros [= <- <-]; right; (split; [done|]);
      eexists _, _; (split; [done|]); [right; by exists e | by left].
Qed.

Lemma run_ok names w w' :
  generate_files_for denied names w = (inr tt, w') →
  w' = log_line COMPLETE (generated_all names (prepared w)).
Proof.
  intros [(_ & _ & ? & _)|(_ & r0 & w0 & Hl & H)]%run_outcome; [done|].
  destruct H as [(-> & _ & ->)|(e & _ & ? & _)]; [|done].
  by apply for_each_ok in Hl as ->.
Qed.

(** A run goes through exactly when none of its calls is refused. *)
Lemma run_ok_iff names w r w' :
  generate_files_for denied names w = (r, w') →
  r = inr tt ↔ all_calls_permitted denied names w.
Proof.
  intros [(Ht & Hd & -> & _)|(Hmk & r0 & w0 & Hl & H)]%run_outcome.
  { split; [done|]. intros [Hp _]. rewrite Hp in Hd; done. }
  split.
  - intros ->. destruct H as [(-> & _ & _)|(e & _ & ? & _)]; [|done].
    split; [done|]. intros prev n rest Hn.
    by apply (for_each_permitted names _ w0 prev n rest).
  - intros [_ Hp].
    apply loop_outcome in Hl
      as [[-> ->]|(prev & n & rest & op & attempt & Hn & -> & Hs)].
    + by destruct H as [(_ & -> & _)|(e & ? & _)].
    + destruct (Hp prev n rest Hn) as [Ho Hw].
      destruct Hs; congruence.
Qed.

(** The console of a run that went through, whatever the list of names. *)
Lemma console_of_run names w w' :
  generate_files_for denied names w = (inr tt, w') →
  console w' =
  console w ++ dir_lines w ++ [STARTING] ++ map progress_line names ++ [COMPLETE].
Proof.
  intros ->%run_ok. simpl. autorewrite with world.
  by rewrite <- !app_assoc.
Qed.

End Runs.

(** ** The statements of the specification *)

(** C1: the content of a generated file is a function of the component
    name alone.  Any two runs that go through, from any two worlds and in
    any two environments (so also two runs in succession), leave the same
    content in the file of every name, the rendering of that name. *)
Theorem content_depends_on_name_only
    denied1 denied2 (names : list string) (w1 w2 w1' w2' : world) (n : string) :
  generate_files_for denied1 names w1 = (inr tt, w1') →
  generate_files_for denied2 names w2 = (inr tt, w2') →
  n ∈ names →
  ∃ c, content n = inr c
       ∧ fs_files w1' !! file_path n = Some c
       ∧ fs_files w2' !! file_path n = Some c.
Proof.
  intros ->%run_ok ->%run_ok Hn. exists (page n).
  split; [apply content_page|]. simpl.
  split; by apply files_generated_all_in.
Qed.

Lemma content_depends_on_name_only_witness :
  let first := generate_files permissive empty_world in
  let second := generate_files permissive first.2 in
  ∃ c, content "toggle" = inr c
       ∧ fs_files first.2 !! file_path "toggle" = Some c
       ∧ fs_files second.2 !! file_path "toggle" = Some c.
Proof.
  intros first second.
  apply (content_depends_on_name_only permissive permissive COMPONENTS
           empty_world first.2 first.2 second.2 "toggle").
  - apply run_eta. vm_compute. reflexivity.
  - apply run_eta. vm_compute. reflexivity.
  - unfold COMPONENTS. do 12 right. left.
Defined.

Lemma str_lower_id (s : string) :
  all_chars (λ ch, negb (is_upper ch)) s = true → str_lower s = s.
Proof.
  induction s as [|c s IH]; simpl; [done|].
  intros [Hc Hs]%andb_prop. rewrite (IH Hs). unfold to_lower.
  by destruct (is_upper c).
Qed.


(** The two readings agree on the ASCII names that have no upper-case
    letter after their first character, as every configured name. *)
Lemma capitalize_first_letter_agrees (name : string) :
  isascii name = true →
  no_upper_after_first name = true →
  capitalize name = capitalize_first_letter name.
Proof.
  intros _ H. destruct name as [|c rest]; [done|]. simpl in *.
  by rewrite str_lower_id.
Qed.

(** C3: after a run that went through, every name of the list has its
    file, holding the page rendered for that name: the texts of the template
    with the name put before the fixed end of the name of the preview file
    and the capitalized name put at each of the five other placeholders;
    the files were written one after the other in the order of the list,
    one per name (the only call before them creates the directory when it
    was missing); distinct names have distinct files, and the file of a
    name is in the target directory. *)
Theorem one_file_per_name denied (names : list string) (w w' : world) :
  generate_files_for denied names w = (inr tt, w') →
  (∀ n, n ∈ names →
        content n = inr (page n)
        ∧ fs_files w' !! file_path n = Some (page n)
        ∧ page n
          = TEXT_0 +:+ n +:+ "_preview.dart" +:+
            TEXT_1 +:+ capitalize n +:+
            TEXT_2 +:+ capitalize n +:+
            TEXT_3 +:+ capitalize n +:+
            TEXT_4 +:+ capitalize n +:+
            TEXT_5 +:+ capitalize n +:+
            TEXT_6)
  ∧ DART_TEMPLATE
    = TEXT_0 +:+ "$preview_file_name" +:+
      TEXT_1 +:+ "$component_name_pascal_case" +:+
      TEXT_2 +:+ "${component_name_pascal_case}" +:+
      TEXT_3 +:+ "${component_name_pascal_case}" +:+
      TEXT_4 +:+ "${component_name_pascal_case}" +:+
      TEXT_5 +:+ "${component_name_pascal_case}" +:+
      TEXT_6
  ∧ syscalls w' = syscalls w ++ dir_calls w ++ calls_for names
  ∧ (NoDup names → NoDup (map file_path names))
  ∧ (∀ n, starts_with_sep n = false →
          file_path n = TARGET_DIR +:+ "/" +:+ n +:+ "_page" +:+ EXTENSION).
Proof.
  intros ->%run_ok. split; [|split; [exact template_eq|split; [|split]]].
  - intros n Hn. split; [apply content_page|]. split.
    + simpl. by apply files_generated_all_in.
    + rewrite page_eq. unfold preview_file_name, pascal_case_name.
      by rewrite str_app_assoc.
  - simpl. autorewrite with world. by rewrite <- app_assoc.
  - intros Hnd. apply NoDup_fmap_2; [|done]. intros ??. apply file_path_inj.
  - intros n Hn. rewrite file_path_eq.
    replace (starts_with_sep (file_name n)) with false; [done|].
    destruct n as [|c n]; [done|]. simpl in Hn. by rewrite <- Hn.
Qed.

Lemma one_file_per_name_witness :
  let w' := (generate_files permissive empty_world).2 in
  (∀ n, n ∈ COMPONENTS →
        content n = inr (page n)
        ∧ fs_files w' !! file_path n = Some (page n)
        ∧ page n
          = TEXT_0 +:+ n +:+ "_preview.dart" +:+
            TEXT_1 +:+ capitalize n +:+
            TEXT_2 +:+ capitalize n +:+
            TEXT_3 +:+ capitalize n +:+
            TEXT_4 +:+ capitalize n +:+
            TEXT_5 +:+ capitalize n +:+
            TEXT_6)
  ∧ DART_TEMPLATE
    = TEXT_0 +:+ "$preview_file_name" +:+
      TEXT_1 +:+ "$component_name_pascal_case" +:+
      TEXT_2 +:+ "${component_name_pascal_case}" +:+
      TEXT_3 +:+ "${component_name_pascal_case}" +:+
      TEXT_4 +:+ "${component_name_pascal_case}" +:+
      TEXT_5 +:+ "${component_name_pascal_case}" +:+
      TEXT_6
  ∧ syscalls w'
    = syscalls empty_world ++ dir_calls empty_world ++ calls_for COMPONENTS
  ∧ (NoDup COMPONENTS → NoDup (map file_path COMPONENTS))
  ∧ (∀ n, starts_with_sep n = false →
          file_path n = TARGET_DIR +:+ "/" +:+ n +:+ "_page" +:+ EXTENSION).
Proof.
  intros w'.
  apply (one_file_per_name permissive COMPONENTS empty_world w').
  apply run_eta. vm_compute. reflexivity.
Defined.

(** C4: the generated file is named after the component, followed by
    "_page" and the extension, the referenced preview file by "_preview"
    and the same extension; these are the names bound in the substitution
    set, the name the file is opened under and the name the import line of
    the page refers to. *)
Theorem file_names_of_component denied (name : string) (w : world) :
  file_name name = name +:+ "_page" +:+ EXTENSION
  ∧ preview_file_name name = name +:+ "_preview" +:+ EXTENSION
  ∧ substitutions name !! "file_name" = Some (name +:+ "_page" +:+ EXTENSION)
  ∧ substitutions name !! "preview_file_name"
    = Some (name +:+ "_preview" +:+ EXTENSION)
  ∧ (∃ later,
       syscalls (generate_file denied name w).2
       = syscalls w
         ++ OpenW (os_path_join TARGET_DIR [name +:+ "_page" +:+ EXTENSION])
         :: later)
  ∧ (∃ after,
       page name
       = "import 'package:jaspr/jaspr.dart';
import '../preview/" +:+ (name +:+ "_preview" +:+ EXTENSION) +:+ "';" +:+ after).
Proof.
  split; [done|]. split; [done|].
  split; [by unfold substitutions; rewrite lookup_insert_eq|].
  split; [apply lookup_preview_file_name|].
  split.
  - rewrite generate_file_run. simpl.
    fold (file_name name). fold (file_path name).
    destruct (denied w (OpenW (file_path name))); simpl; [by exists []|].
    destruct (denied _ (WriteF _ _)); simpl; rewrite <- !app_assoc; by eexists.
  - rewrite page_eq. fold TEXT_0. fold (preview_file_name name).
    eexists. by do 2 f_equal.
Qed.

(** C5: for the list ["badge"], a run that went through leaves the file
    badge_page.dart in the target directory; the line of its class
    declaration names BadgePage and its second import line refers to
    badge_preview.dart. *)
Theorem badge_page_generated denied (w w' : world) :
  generate_files_for denied ["badge"] w = (inr tt, w') →
  ∃ c,
    fs_files w' !! (TARGET_DIR +:+ "/" +:+ "badge_page" +:+ EXTENSION) = Some c
    ∧ lines c !! 1 = Some "import '../preview/badge_preview.dart';"
    ∧ lines c !! 7 = Some "class BadgePage extends StatelessComponent {"
    ∧ (∀ l, l ∈ lines c → String.prefix "class " l = true →
            str_in "BadgePage" l = true)
    ∧ (∃ l, l ∈ lines c ∧ String.prefix "import " l = true
            ∧ str_in ("badge_preview" +:+ EXTENSION) l = true).
Proof.
  intros ->%run_ok. exists (page "badge"). split.
  - simpl. apply (files_generated_all_in ["badge"] _ "badge"). by left.
  - assert (Hl : lines (page "badge") =
      [ "import 'package:jaspr/jaspr.dart';";
        "import '../preview/badge_preview.dart';";
        "";
        "/// The page that showcases the `Badge` component.";
        "///";
        "/// This is a simple wrapper component that renders the `BadgePreview`,";
        "/// which contains all the interactive examples and code snippets.";
        "class BadgePage extends StatelessComponent {";
        "  const BadgePage({super.key});";
        "";
        "  @override";
        "  Iterable<Component> build(BuildContext context) sync* {";
        "    yield BadgePreview();";
        "  }";
        "}";
        "" ]) by (vm_compute; reflexivity).
    rewrite Hl. split; [done|]. split; [done|]. split.
    + intros l Hin Hp. elem_cases Hin; by vm_compute in Hp |- *.
    + exists "import '../preview/badge_preview.dart';". split; [|done].
      right. by left.
Qed.

Lemma badge_page_generated_witness :
  let w' := (generate_files_for permissive ["badge"] empty_world).2 in
  ∃ c,
    fs_files w' !! (TARGET_DIR +:+ "/" +:+ "badge_page" +:+ EXTENSION) = Some c
    ∧ lines c !! 1 = Some "import '../preview/badge_preview.dart';"
    ∧ lines c !! 7 = Some "class BadgePage extends StatelessComponent {"
    ∧ (∀ l, l ∈ lines c → String.prefix "class " l = true →
            str_in "BadgePage" l = true)
    ∧ (∃ l, l ∈ lines c ∧ String.prefix "import " l = true
            ∧ str_in ("badge_preview" +:+ EXTENSION) l = true).
Proof.
  intros w'. apply (badge_page_generated permissive empty_world w').
  apply run_eta. vm_compute. reflexivity.
Defined.

(** C6: a call that the environment refuses is not swallowed: the run goes
    through exactly when none of its calls is refused.  A run that does not
    go through ends with the [OSError] of a refused call (the creation of
    the directory, or the opening or the writing of a file); that call is
    the last one attempted and each call before it was attempted once, in
    the order of the list; nothing is printed for the file that failed nor
    after it; and the files written before it for other names still hold
    their pages. *)
Theorem io_error_aborts_run
    denied (names : list string) (w w' : world) (r : result unit) :
  generate_files_for denied names w = (r, w') →
  (r = inr tt ↔ all_calls_permitted denied names w)
  ∧ ∀ e, r = inl e →
      ∃ op,
        e = OSError op
        ∧ (∃ w0, denied w0 op = true)
        ∧ ((op = Makedirs TARGET_DIR
            ∧ syscalls w' = syscalls w ++ [op]
            ∧ console w' = console w
            ∧ fs_files w' = fs_files w)
           ∨ ∃ prev n rest attempt,
               names = prev ++ n :: rest
               ∧ (attempt = [OpenW (file_path n)] ∨ attempt = calls_of n)
               ∧ last attempt = Some op
               ∧ syscalls w'
                 = syscalls w ++ dir_calls w ++ calls_for prev ++ attempt
               ∧ console w'
                 = console w ++ dir_lines w ++ [STARTING]
                   ++ map progress_line prev
               ∧ (∀ m, m ∈ prev → m ≠ n →
                       fs_files w' !! file_path m = Some (page m))).
Proof.
  intros H. split; [by apply (run_ok_iff denied names w r w')|].
  intros e ->.
  apply run_outcome in H as [(_ & Hd & [= ->] & ->)|(_ & r0 & w0 & Hl & H)].
  { exists (Makedirs TARGET_DIR). split; [done|]. split; [by exists w|].
    left. by simpl. }
  destruct H as [(_ & ? & _)|(e' & -> & [= <-] & <-)]; [done|].
  apply loop_outcome in Hl
    as [[? _]|(prev & n & rest & op & attempt & -> & [= ->] & Hs)]; [done|].
  apply stopped_world in Hs as (Hlast & _ & Hden & Hatt & Hs & Hc & _ & Hf).
  exists op. split; [done|]. split; [done|]. right.
  exists prev, n, rest, attempt. split; [done|]. split; [done|]. split; [done|].
  rewrite Hs, Hc. autorewrite with world.
  split; [by rewrite <- !app_assoc|]. split; [by rewrite <- !app_assoc|].
  intros m Hm Hne. rewrite Hf.
  - by apply files_generated_all_in.
  - intros Heq. by apply file_path_inj in Heq.
Qed.

Lemma io_error_aborts_run_witness :
  let denied := refusing (is_open_of (file_path "badge")) in
  let r := inl (OSError (OpenW (file_path "badge"))) in
  let w' := (generate_files denied empty_world).2 in
  (r = inr tt ↔ all_calls_permitted denied COMPONENTS empty_world)
  ∧ ∀ e, r = inl e →
      ∃ op,
        e = OSError op
        ∧ (∃ w0, denied w0 op = true)
        ∧ ((op = Makedirs TARGET_DIR
            ∧ syscalls w' = syscalls empty_world ++ [op]
            ∧ console w' = console empty_world
            ∧ fs_files w' = fs_files empty_world)
           ∨ ∃ prev n rest attempt,
               COMPONENTS = prev ++ n :: rest
               ∧ (attempt = [OpenW (file_path n)] ∨ attempt = calls_of n)
               ∧ last attempt = Some op
               ∧ syscalls w'
                 = syscalls empty_world ++ dir_calls empty_world
                   ++ calls_for prev ++ attempt
               ∧ console w'
                 = console empty_world ++ dir_lines empty_world ++ [STARTING]
                   ++ map progress_line prev
               ∧ (∀ m, m ∈ prev → m ≠ n →
                       fs_files w' !! file_path m = Some (page m))).
Proof.
  intros denied r w'.
  apply (io_error_aborts_run denied COMPONENTS empty_world w' r).
  apply run_eta. vm_compute. reflexivity.
Defined.

(** Rendering a well-formed template ends with a missing-key error exactly
    when some placeholder of the template is not bound; when all are bound
    it gives the literal substitution. *)
Lemma substitute_well_formed (template : string) (mapping : gmap string string) :
  well_formed template = true →
  ((∃ k, substitute template mapping = inl (KeyError k))
   ↔ (∃ k, k ∈ placeholders template ∧ mapping !! k = None))
  ∧ ((∀ k, k ∈ placeholders template → is_Some (mapping !! k)) →
     substitute template mapping
     = inr (literal_substitution template mapping)).
Proof.
  intros Hwf. split; [split|].
  - intros [k Hk]. exists k. by apply (re_sub_key_error _ _ _ Hwf).
  - intros (k & Hk & Hm). by apply (re_sub_unbound _ _ k Hwf).
  - by apply substitute_bound.
Qed.

(** C7: the template of the script has six placeholders, one for the name
    of the preview file and five for the capitalized name.  Whatever the
    substitution set, rendering it ends with a missing-key error exactly
    when one of these two keys is not bound by the set, and the error names
    the first key of the template that is not bound; when both are bound it
    succeeds, and its result is the text of the template with each
    placeholder replaced by the value bound to its key, that is the
    literal substitution of the bound values. *)
Theorem substitute_missing_key (mapping : gmap string string) :
  placeholders DART_TEMPLATE
  = [ "preview_file_name";
      "component_name_pascal_case"; "component_name_pascal_case";
      "component_name_pascal_case"; "component_name_pascal_case";
      "component_name_pascal_case" ]
  ∧ DART_TEMPLATE
    = TEXT_0 +:+ "$preview_file_name" +:+
      TEXT_1 +:+ "$component_name_pascal_case" +:+
      TEXT_2 +:+ "${component_name_pascal_case}" +:+
      TEXT_3 +:+ "${component_name_pascal_case}" +:+
      TEXT_4 +:+ "${component_name_pascal_case}" +:+
      TEXT_5 +:+ "${component_name_pascal_case}" +:+
      TEXT_6
  ∧ ((∃ k, substitute DART_TEMPLATE mapping = inl (KeyError k))
     ↔ mapping !! "preview_file_name" = None
       ∨ mapping !! "component_name_pascal_case" = None)
  ∧ (mapping !! "preview_file_name" = None →
     substitute DART_TEMPLATE mapping = inl (KeyError "preview_file_name"))
  ∧ (is_Some (mapping !! "preview_file_name") →
     mapping !! "component_name_pascal_case" = None →
     substitute DART_TEMPLATE mapping
     = inl (KeyError "component_name_pascal_case"))
  ∧ (∀ p c, mapping !! "preview_file_name" = Some p →
            mapping !! "component_name_pascal_case" = Some c →
            substitute DART_TEMPLATE mapping
            = inr (TEXT_0 +:+ p +:+ TEXT_1 +:+ c +:+ TEXT_2 +:+ c +:+
                   TEXT_3 +:+ c +:+ TEXT_4 +:+ c +:+ TEXT_5 +:+ c +:+ TEXT_6))
  ∧ ((∃ k, substitute DART_TEMPLATE mapping = inl (KeyError k))
     ↔ (∃ k, k ∈ placeholders DART_TEMPLATE ∧ mapping !! k = None))
  ∧ ((∀ k, k ∈ placeholders DART_TEMPLATE → is_Some (mapping !! k)) →
     substitute DART_TEMPLATE mapping
     = inr (literal_substitution DART_TEMPLATE mapping)).
Proof.
  split; [by vm_compute|]. split; [exact template_eq|].
  rewrite substitute_template.
  split; [|split; [|split; [|split]]].
  - destruct (mapping !! "preview_file_name") as [p|]; [|split; eauto].
    destruct (mapping !! "component_name_pascal_case") as [c|]; [|split; eauto].
    split; [by intros [k ?] | by intros [?|?]].
  - by intros ->.
  - intros [p ->] ->. done.
  - by intros p c -> ->.
  - rewrite <- substitute_template.
    exact (substitute_well_formed DART_TEMPLATE mapping well_formed_template).
Qed.

(** C8: when the target directory is there already, the run does not try to
    create it and leaves the set of directories as it is; the only calls it
    makes open or write the files of the listed names; it goes through in
    every environment that refuses nothing but the creation of directories;
    and, however it ends, every file other than those of the listed names
    is as it was. *)
Theorem existing_directory_is_kept
    denied (names : list string) (w w' : world) (r : result unit) :
  TARGET_DIR ∈ fs_dirs w →
  generate_files_for denied names w = (r, w') →
  fs_dirs w' = fs_dirs w
  ∧ (∃ ops, syscalls w' = syscalls w ++ ops
            ∧ ∀ op, op ∈ ops → ∃ n, n ∈ names ∧ op ∈ calls_of n)
  ∧ ((∀ w0 op, denied w0 op = true → is_makedirs op = true) → r = inr tt)
  ∧ (∀ p, p ∉ map file_path names → fs_files w' !! p = fs_files w !! p).
Proof.
  intros Hdir H.
  assert (Ht : target_exists w = true).
  { unfold target_exists. by rewrite bool_decide_eq_true_2. }
  assert (Hp : prepared w = log_line STARTING w) by (unfold prepared; by rewrite Ht).
  assert (Hcalls : ∀ l op, op ∈ calls_for l → ∃ n, n ∈ l ∧ op ∈ calls_of n).
  { intros l op (n & Hn & Hop)%list_elem_of_In%in_flat_map.
    exists n. by rewrite !list_elem_of_In. }
  apply run_outcome in H as [(Hf & _)|(_ & r0 & w0 & Hl & H)]; [congruence|].
  rewrite Hp in Hl.
  apply loop_outcome in Hl
    as [[-> ->]|(prev & n & rest & op & attempt & -> & -> & Hs)].
  - destruct H as [(_ & -> & ->)|(e & ? & _)]; [|done]. simpl.
    autorewrite with world. simpl.
    split; [done|]. split; [|split; [done|]].
    + eexists. split; [done|]. apply Hcalls.
    + intros p Hp'. by rewrite files_generated_all_other.
  - destruct H as [(? & _)|(e & [= <-] & -> & ->)]; [done|].
    apply stopped_world in Hs as (_ & Hmk & Hden & Hatt & Hs & _ & Hd & Hf).
    rewrite Hs, Hd. autorewrite with world. simpl.
    split; [done|]. split; [|split].
    + eexists. split; [by rewrite <- app_assoc|].
      intros op' [Hop|Hop]%elem_of_app.
      * destruct (Hcalls _ _ Hop) as (m & Hm & Hop'). exists m. split; [|done].
        apply elem_of_app. by left.
      * exists n. split; [apply elem_of_app; right; by left|].
        destruct Hatt as [-> | ->]; [|done].
        apply list_elem_of_singleton in Hop as ->. by left.
    + intros Hperm. destruct Hden as [w1 Hw1]. apply Hperm in Hw1. congruence.
    + intros p Hp'. rewrite map_app in Hp'. rewrite Hf.
      * rewrite files_generated_all_other; [done|].
        intros Hin. apply Hp'. apply elem_of_app. by left.
      * intros ->. apply Hp'. apply elem_of_app. right. by left.
Qed.

Lemma existing_directory_is_kept_witness :
  let denied := refusing is_makedirs in
  let w := World {[TARGET_DIR]} {[ "notes.txt" := "keep me" ]} [] [] in
  let w' := (generate_files denied w).2 in
  fs_dirs w' = fs_dirs w
  ∧ (∃ ops, syscalls w' = syscalls w ++ ops
            ∧ ∀ op, op ∈ ops → ∃ n, n ∈ COMPONENTS ∧ op ∈ calls_of n)
  ∧ ((∀ w0 op, denied w0 op = true → is_makedirs op = true) →
     @inr exn unit tt = inr tt)
  ∧ (∀ p, p ∉ map file_path COMPONENTS → fs_files w' !! p = fs_files w !! p).
Proof.
  intros denied w w'.
  apply (existing_directory_is_kept denied COMPONENTS w w' (inr tt)).
  - vm_compute. reflexivity.
  - apply run_eta. vm_compute. reflexivity.
Defined.

(** C9 fails on the code: the literals of the two banners are written with
    a doubled backslash, so that the console shows a backslash and the
    letter n where a line feed was meant, and no blank line comes before
    the starting message.  The run below is the one on the empty list in a
    world without the target directory. *)
Theorem banners_show_backslash_n :
  let run := generate_files_for permissive [] empty_world in
  run.1 = inr tt
  ∧ console run.2 = [CREATED; STARTING; COMPLETE]
  ∧ STARTING
    = String (ascii_of_nat 92) (String "n" "Starting file generation...")
  ∧ String.get 0 STARTING ≠ Some "010"%char
  ∧ str_in (NEWLINE +:+ NEWLINE +:+ "Starting") (stdout_text (console run.2))
    = false
  ∧ stdout_text (console run.2)
    = "Created directory: examples/deepyr_example/lib/pages/component_routes
\nStarting file generation...
\nFile generation complete!\n
".
Proof. vm_compute. repeat split; done. Qed.

(** C10: for every component name the rendering goes through and gives the
    page of the name; the template refers to the keys preview_file_name and
    component_name_pascal_case only, which the substitution set binds; the
    key file_name is bound as well but no placeholder refers to it, so that
    its value has no influence on the content; and the content does not
    contain the name of the generated file. *)
Theorem rendering_never_misses_a_key (name : string) :
  content name = inr (page name)
  ∧ (∀ k, k ∈ placeholders DART_TEMPLATE
          ↔ k = "preview_file_name" ∨ k = "component_name_pascal_case")
  ∧ substitutions name !! "preview_file_name" = Some (preview_file_name name)
  ∧ substitutions name !! "component_name_pascal_case"
    = Some (pascal_case_name name)
  ∧ substitutions name !! "file_name" = Some (file_name name)
  ∧ ("file_name" ∉ placeholders DART_TEMPLATE)
  ∧ (∀ v, substitute DART_TEMPLATE (<["file_name" := v]> (substitutions name))
          = content name)
  ∧ substitute DART_TEMPLATE (delete "file_name" (substitutions name))
    = content name
  ∧ str_in (file_name name) (page name) = false.
Proof.
  split; [apply content_page|].
  split.
  { intros k. rewrite placeholders_template. simpl. split.
    - intros H. elem_cases H; tauto.
    - intros [-> | ->]; [by left | right; by left]. }
  split; [apply lookup_preview_file_name|].
  split; [apply lookup_component_name_pascal_case|].
  split; [by unfold substitutions; rewrite lookup_insert_eq|].
  split; [apply file_name_not_placeholder|].
  split; [|split; [|apply file_name_not_in_page]].
  - intros v. apply substitute_agree. intros k Hk.
    rewrite lookup_insert_ne; [done|].
    intros <-. by apply file_name_not_placeholder.
  - apply substitute_agree. intros k Hk.
    rewrite lookup_delete_ne; [done|].
    intros <-. by apply file_name_not_placeholder.
Qed.

(** * Further properties of the script *)

(** ** The page of a name *)

Lemma length_str_lower (s : string) : String.length (str_lower s) = String.length s.
Proof. induction s as [|c s IH]; simpl; [done | by rewrite IH]. Qed.

Lemma length_capitalize (s : string) : String.length (capitalize s) = String.length s.
Proof. destruct s as [|c s]; simpl; [done | by rewrite length_str_lower]. Qed.

Lemma to_upper_to_upper (c : ascii) : to_upper (to_upper c) = to_upper c.
Proof. by destruct c as [[] [] [] [] [] [] [] []]. Qed.

Lemma all_chars_app (P : ascii → bool) (s t : string) :
  all_chars P (s +:+ t) = all_chars P s && all_chars P t.
Proof.
  induction s as [|c s IH]; [done|].
  rewrite str_app_cons. simpl. by rewrite IH, andb_assoc.
Qed.

Lemma delimiter_to_upper (c : ascii) :
  bool_decide (to_upper c = "$"%char) = bool_decide (c = "$"%char).
Proof. by destruct c as [[] [] [] [] [] [] [] []]. Qed.

Lemma delimiter_to_lower (c : ascii) :
  bool_decide (to_lower c = "$"%char) = bool_decide (c = "$"%char).
Proof. by destruct c as [[] [] [] [] [] [] [] []]. Qed.

Lemma no_delimiter_str_lower (s : string) :
  no_delimiter (str_lower s) = no_delimiter s.
Proof.
  unfold no_delimiter. induction s as [|c s IH]; simpl; [done|].
  by rewrite delimiter_to_lower, IH.
Qed.

Lemma no_delimiter_capitalize (s : string) :
  no_delimiter (capitalize s) = no_delimiter s.
Proof.
  destruct s as [|c s]; [done|].
  change (no_delimiter (capitalize (String c s)))
    with (negb (bool_decide (to_upper c = "$"%char)) && no_delimiter (str_lower s)).
  by rewrite delimiter_to_upper, no_delimiter_str_lower.
Qed.

Lemma no_delimiter_app (s t : string) :
  no_delimiter (s +:+ t) = no_delimiter s && no_delimiter t.
Proof. apply all_chars_app. Qed.

(** Equal strings that start with parts of the same length start with the
    same part. *)
Lemma str_app_inj_length (a b x y : string) :
  String.length a = String.length b → a +:+ x = b +:+ y → a = b.
Proof.
  revert b. induction a as [|c a IH]; intros [|d b] Hl H; try done.
  rewrite !str_app_cons in H. injection H as -> H. f_equal.
  apply IH; [|done]. simpl in Hl. lia.
Qed.

Lemma length_page (name : string) :
  String.length (page name) = 6 * String.length name + 420.
Proof.
  rewrite page_eq. unfold preview_file_name, pascal_case_name.
  rewrite !str_length_app, !length_capitalize.
  change (String.length TEXT_0) with 54.
  change (String.length TEXT_1) with 37.
  change (String.length TEXT_2) with 74.
  change (String.length TEXT_3) with 83.
  change (String.length TEXT_4) with 42.
  change (String.length TEXT_5) with 100.
  change (String.length TEXT_6) with 17.
  change (String.length "_preview.dart") with 13. lia.
Qed.

(** X1: for every name, rendering gives the text of the template with the
    name put, as it is, before the fixed end of the name of the preview file
    and the capitalized name put at each of the five other placeholders;
    the texts around them are those of the template. *)
Theorem content_closed_form (name : string) :
  content name
  = inr (TEXT_0 +:+ name +:+ "_preview.dart" +:+
         TEXT_1 +:+ capitalize name +:+
         TEXT_2 +:+ capitalize name +:+
         TEXT_3 +:+ capitalize name +:+
         TEXT_4 +:+ capitalize name +:+
         TEXT_5 +:+ capitalize name +:+
         TEXT_6)
  ∧ DART_TEMPLATE
    = TEXT_0 +:+ "$preview_file_name" +:+
      TEXT_1 +:+ "$component_name_pascal_case" +:+
      TEXT_2 +:+ "${component_name_pascal_case}" +:+
      TEXT_3 +:+ "${component_name_pascal_case}" +:+
      TEXT_4 +:+ "${component_name_pascal_case}" +:+
      TEXT_5 +:+ "${component_name_pascal_case}" +:+
      TEXT_6.
Proof.
  split; [|by vm_compute].
  rewrite content_page, page_eq. unfold preview_file_name, pascal_case_name.
  by rewrite str_app_assoc.
Qed.

(** X2: a page holds a delimiter only if the name does: the rendering
    leaves no delimiter of its own, so no placeholder, behind. *)
Theorem page_has_no_delimiter_of_its_own (name : string) :
  no_delimiter (page name) = no_delimiter name.
Proof.
  rewrite page_eq. unfold preview_file_name, pascal_case_name.
  rewrite !no_delimiter_app, !no_delimiter_capitalize.
  change (no_delimiter TEXT_0) with true.
  change (no_delimiter TEXT_1) with true.
  change (no_delimiter TEXT_2) with true.
  change (no_delimiter TEXT_3) with true.
  change (no_delimiter TEXT_4) with true.
  change (no_delimiter TEXT_5) with true.
  change (no_delimiter TEXT_6) with true.
  change (no_delimiter "_preview.dart") with true.
  by destruct (no_delimiter name).
Qed.

(** X3: different names have different contents: the page determines the
    name it was rendered for. *)
Theorem different_names_different_pages (n1 n2 : string) :
  n1 ≠ n2 → content n1 ≠ content n2.
Proof.
  intros Hne H0. apply Hne. rewrite !content_page in H0.
  pose proof (f_equal (λ r : result string,
                         match r with inr x => x | inl _ => EmptyString end) H0)
    as H. cbv beta iota in H. clear H0.
  assert (Hl : String.length n1 = String.length n2).
  { pose proof (f_equal String.length H) as Hl. rewrite !length_page in Hl. lia. }
  rewrite !page_eq in H. apply String.app_inj in H.
  unfold preview_file_name in H. rewrite !str_app_assoc in H.
  by apply str_app_inj_length in H.
Qed.

Lemma different_names_different_pages_witness :
  content "alert" ≠ content "badge".
Proof. apply (different_names_different_pages "alert" "badge"). discriminate. Defined.

(** X4: on an ASCII name the capitalization step keeps the length of the
    name, changes nothing but the case of letters, and changes nothing when
    applied a second time. *)
Theorem capitalize_changes_case_only (name : string) :
  isascii name = true →
  String.length (capitalize name) = String.length name
  ∧ str_lower (capitalize name) = str_lower name
  ∧ capitalize (capitalize name) = capitalize name.
Proof.
  intros _.
  split; [apply length_capitalize|]. split; [apply str_lower_capitalize|].
  destruct name as [|c s]; [done|]. simpl.
  by rewrite to_upper_to_upper, str_lower_str_lower.
Qed.

Lemma capitalize_changes_case_only_witness :
  String.length (capitalize "dataTable") = String.length "dataTable"
  ∧ str_lower (capitalize "dataTable") = str_lower "dataTable"
  ∧ capitalize (capitalize "dataTable") = capitalize "dataTable".
Proof. apply (capitalize_changes_case_only "dataTable"). reflexivity. Defined.

(** ** Paths *)

Lemma prefix_app (a b : string) : String.prefix a (a +:+ b) = true.
Proof.
  induction a as [|c a IH]; [by destruct b|].
  rewrite str_app_cons. simpl. by destruct (ascii_dec c c).
Qed.

Lemma starts_with_sep_file_name (name : string) :
  starts_with_sep (file_name name) = starts_with_sep name.
Proof. by destruct name. Qed.

(** X5: the file of a name is put under the target directory exactly when
    the name does not start with the separator; a name that starts with it
    is taken as a path of its own, outside the target directory. *)
Theorem file_path_under_target (name : string) :
  file_path name
  = (if starts_with_sep name then name +:+ "_page.dart"
     else TARGET_DIR +:+ "/" +:+ name +:+ "_page.dart")
  ∧ String.prefix (TARGET_DIR +:+ "/") (file_path name)
    = negb (starts_with_sep name).
Proof.
  rewrite file_path_eq, starts_with_sep_file_name.
  destruct (starts_with_sep name) eqn:E; (split; [done|]).
  - destruct name as [|c name]; [done|]. simpl in E.
    destruct c as [[] [] [] [] [] [] [] []]; try done.
  - rewrite <- str_app_assoc. apply prefix_app.
Qed.

Lemma ends_with_sep_cons (c : ascii) (s : string) :
  s ≠ EmptyString → ends_with_sep (String c s) = ends_with_sep s.
Proof. by destruct s. Qed.

Lemma ends_with_sep_app (a b : string) :
  b ≠ EmptyString → ends_with_sep (a +:+ b) = ends_with_sep b.
Proof.
  intros Hb. induction a as [|c a IH]; [done|].
  rewrite str_app_cons, ends_with_sep_cons; [done|].
  destruct a; [by destruct b | done].
Qed.

Lemma plain_component_spec (s : string) :
  plain_component s = true →
  s ≠ EmptyString ∧ starts_with_sep s = false ∧ ends_with_sep s = false.
Proof.
  unfold plain_component. intros [Hne Hs]%andb_prop.
  apply negb_true_iff, bool_decide_eq_false_1 in Hne. split; [done|].
  split.
  - destruct s as [|c s]; [done|]. simpl in Hs. apply andb_prop in Hs as [Hc _].
    apply negb_true_iff, bool_decide_eq_false_1 in Hc.
    destruct c as [[] [] [] [] [] [] [] []]; try done.
  - clear Hne. induction s as [|c s IH]; [done|]. simpl in Hs.
    apply andb_prop in Hs as [Hc Hs].
    apply negb_true_iff, bool_decide_eq_false_1 in Hc.
    destruct s as [|d s].
    + simpl. by destruct (decide (c = "/"%char)).
    + rewrite ends_with_sep_cons by done. by apply IH.
Qed.

Lemma concat_cons_app (x b : string) (ps : list string) :
  String.concat "/" ((x +:+ "/" +:+ b) :: ps)
  = x +:+ "/" +:+ String.concat "/" (b :: ps).
Proof. destruct ps; simpl; [done|]. by rewrite !str_app_assoc. Qed.

(** X6: joining components that are not empty and have no separator in
    them puts one separator between each two of them. *)
Theorem os_path_join_plain (a : string) (p : list string) :
  plain_component a = true →
  forallb plain_component p = true →
  os_path_join a p = String.concat "/" (a :: p).
Proof.
  unfold os_path_join. revert a.
  assert (Hgen : ∀ a, a ≠ EmptyString → ends_with_sep a = false →
            forallb plain_component p = true →
            fold_left join2 p a = String.concat "/" (a :: p)).
  { induction p as [|b p IH]; intros a Hne He Hp; [done|].
    simpl in Hp. apply andb_prop in Hp as [Hb Hp].
    destruct (plain_component_spec b Hb) as (Hbne & Hbs & Hbe).
    change (fold_left join2 (b :: p) a) with (fold_left join2 p (join2 a b)).
    assert (Hj : join2 a b = a +:+ "/" +:+ b).
    { unfold join2. rewrite Hbs, He. by destruct (decide (a = "")). }
    rewrite Hj, IH; [apply concat_cons_app| | |done].
    - by destruct a.
    - change (a +:+ "/" +:+ b) with (a +:+ String "/" b).
      rewrite ends_with_sep_app by done. by rewrite ends_with_sep_cons. }
  intros a Ha Hp. destruct (plain_component_spec a Ha) as (? & _ & ?).
  by apply Hgen.
Qed.

Lemma os_path_join_plain_witness :
  os_path_join "examples" ["deepyr_example"; "lib"; "pages"; "component_routes"]
  = String.concat "/"
      ("examples" :: ["deepyr_example"; "lib"; "pages"; "component_routes"]).
Proof.
  apply (os_path_join_plain "examples"
           ["deepyr_example"; "lib"; "pages"; "component_routes"]);
    reflexivity.
Defined.

(** ** Rendering *)

(** X8: rendering reads the mapping at the keys of the template only: two
    mappings that agree on them give the same result, be it a text or an
    exception. *)
Theorem substitute_reads_placeholders_only
    (template : string) (m1 m2 : gmap string string) :
  (∀ k, k ∈ placeholders template → m1 !! k = m2 !! k) →
  substitute template m1 = substitute template m2.
Proof. apply substitute_agree. Qed.

Lemma substitute_reads_placeholders_only_witness :
  substitute "Hello $who, ${missing}!" {[ "who" := "you"; "other" := "x" ]}
  = substitute "Hello $who, ${missing}!" {[ "who" := "you" ]}.
Proof.
  apply (substitute_reads_placeholders_only "Hello $who, ${missing}!").
  intros k Hk. vm_compute in Hk. elem_cases Hk; reflexivity.
Defined.

Lemma scan_no_delimiter (t : string) :
  no_delimiter t = true → scan 0 t = texts t.
Proof.
  unfold no_delimiter. induction t as [|c t IH]; simpl; [done|].
  intros [Hc Ht]%andb_prop. apply negb_true_iff, bool_decide_eq_false_1 in Hc.
  destruct (decide (c = "$"%char)); [done|]. by rewrite IH.
Qed.

(** X9: a template without delimiter has no placeholder and renders to
    itself, whatever the mapping. *)
Theorem substitute_without_delimiter (template : string) (mapping : gmap string string) :
  no_delimiter template = true →
  placeholders template = [] ∧ substitute template mapping = inr template.
Proof.
  intros H. unfold placeholders, substitute. rewrite (scan_no_delimiter _ H).
  split.
  - clear H. induction template as [|c t IH]; [done|]. simpl. apply IH.
  - rewrite <- (app_nil_r (texts template)), re_sub_texts. simpl.
    by rewrite str_app_nil_r.
Qed.

Lemma substitute_without_delimiter_witness :
  placeholders "class Page {}" = []
  ∧ substitute "class Page {}" ∅ = inr "class Page {}".
Proof. apply (substitute_without_delimiter "class Page {}" ∅). reflexivity. Defined.

(** ** Runs *)

Lemma dirs_prepared w :
  fs_dirs (prepared w)
  = if target_exists w then fs_dirs w
    else fs_dirs w ∪ list_to_set (segments TARGET_DIR).
Proof. unfold prepared. by destruct (target_exists w). Qed.

Lemma segments_target :
  segments TARGET_DIR
  = [ "examples"; "examples/deepyr_example"; "examples/deepyr_example/lib";
      "examples/deepyr_example/lib/pages";
      "examples/deepyr_example/lib/pages/component_routes" ].
Proof. by vm_compute. Qed.

Lemma target_in_segments : TARGET_DIR ∈ segments TARGET_DIR.
Proof. rewrite segments_target. do 4 right. left. Qed.

Lemma elem_of_map_file_path (p : string) (names : list string) :
  p ∈ map file_path names ↔ ∃ n, n ∈ names ∧ p = file_path n.
Proof.
  rewrite list_elem_of_In, in_map_iff. split.
  - intros (n & <- & Hn). exists n. by rewrite list_elem_of_In.
  - intros (n & Hn & ->). exists n. by rewrite <- list_elem_of_In.
Qed.

Lemma file_path_not_in (m : string) (names : list string) :
  m ∉ names → file_path m ∉ map file_path names.
Proof.
  intros Hm (n & Hn & Heq)%elem_of_map_file_path.
  apply file_path_inj in Heq as ->. done.
Qed.

Lemma files_generated_all_some names w p :
  is_Some (fs_files w !! p) → is_Some (fs_files (generated_all names w) !! p).
Proof.
  destruct (decide (p ∈ map file_path names)) as [Hin|Hout].
  - apply elem_of_map_file_path in Hin as (n & Hn & ->).
    rewrite files_generated_all_in by done. by eexists.
  - by rewrite files_generated_all_other.
Qed.

Lemma target_exists_generated_all names w :
  target_exists w = true → target_exists (generated_all names w) = true.
Proof.
  unfold target_exists. rewrite dirs_generated_all.
  intros [H|H]%orb_prop; apply orb_true_intro; [by left|right].
  apply bool_decide_eq_true_1 in H. apply bool_decide_eq_true_2.
  by apply files_generated_all_some.
Qed.

Lemma target_exists_prepared w : target_exists (prepared w) = true.
Proof.
  unfold target_exists at 1. rewrite dirs_prepared, files_prepared.
  destruct (target_exists w) eqn:E; [exact E|].
  apply orb_true_intro. left. apply bool_decide_eq_true_2.
  apply elem_of_union. right. apply elem_of_list_to_set, target_in_segments.
Qed.

(** X10: a second run after one that went through changes neither the
    files nor the directories, and does not try to create the directory: it
    only opens and writes the files of the names again. *)
Theorem second_run_changes_nothing
    denied1 denied2 (names : list string) (w w1 w2 : world) :
  generate_files_for denied1 names w = (inr tt, w1) →
  generate_files_for denied2 names w1 = (inr tt, w2) →
  fs_files w2 = fs_files w1
  ∧ fs_dirs w2 = fs_dirs w1
  ∧ syscalls w2 = syscalls w1 ++ calls_for names.
Proof.
  intros H1%run_ok H2%run_ok.
  assert (Ht : target_exists w1 = true).
  { rewrite H1. apply (target_exists_generated_all names (prepared w)).
    apply target_exists_prepared. }
  assert (Hp : prepared w1 = log_line STARTING w1)
    by (unfold prepared; by rewrite Ht).
  rewrite Hp in H2. rewrite H2. simpl. autorewrite with world. simpl.
  split; [|done]. apply map_eq. intros p.
  destruct (decide (p ∈ map file_path names)) as [Hin|Hout].
  - apply elem_of_map_file_path in Hin as (n & Hn & ->).
    rewrite files_generated_all_in by done.
    rewrite H1. simpl. by rewrite files_generated_all_in.
  - by rewrite files_generated_all_other.
Qed.

Lemma second_run_changes_nothing_witness :
  let w1 := (generate_files permissive empty_world).2 in
  let w2 := (generate_files permissive w1).2 in
  fs_files w2 = fs_files w1
  ∧ fs_dirs w2 = fs_dirs w1
  ∧ syscalls w2 = syscalls w1 ++ calls_for COMPONENTS.
Proof.
  intros w1 w2.
  apply (second_run_changes_nothing permissive permissive COMPONENTS
           empty_world w1 w2).
  - apply run_eta. vm_compute. reflexivity.
  - apply run_eta. vm_compute. reflexivity.
Defined.

(** X11: a run that goes through prints, in this order: the line about the
    directory if and only if it had to create it, the starting banner, one
    line with the path of the file for each name in the order of the list,
    and the closing banner.  The banners start with a backslash and the
    letter n, as their literals do. *)
Theorem console_of_successful_run denied (names : list string) (w w' : world) :
  generate_files_for denied names w = (inr tt, w') →
  console w'
  = console w
    ++ (if target_exists w then [] else ["Created directory: " +:+ TARGET_DIR])
    ++ [String "092" "nStarting file generation..."]
    ++ map (λ n, "  -> Successfully created " +:+ file_path n) names
    ++ [String "092" "nFile generation complete!" +:+ String "092" "n"].
Proof. apply console_of_run. Qed.

Lemma console_of_successful_run_witness :
  let w' := (generate_files_for permissive ["badge"] empty_world).2 in
  console w'
  = console empty_world
    ++ (if target_exists empty_world then []
        else ["Created directory: " +:+ TARGET_DIR])
    ++ [String "092" "nStarting file generation..."]
    ++ map (λ n, "  -> Successfully created " +:+ file_path n) ["badge"]
    ++ [String "092" "nFile generation complete!" +:+ String "092" "n"].
Proof.
  intros w'.
  apply (console_of_successful_run permissive ["badge"] empty_world w').
  apply run_eta. vm_compute. reflexivity.
Defined.

(** The world the loop body leaves when it stops has the files it had. *)
Lemma stopped_keeps_files denied w1 n op attempt w' p :
  stopped denied w1 n op attempt w' →
  is_Some (fs_files w1 !! p) → is_Some (fs_files w' !! p).
Proof.
  intros [Hd|Ho Hd]; simpl; [done|]. intros Hp.
  destruct (decide (file_path n = p)) as [->|Hne].
  - rewrite lookup_insert_eq. by eexists.
  - by rewrite lookup_insert_ne.
Qed.

(** X12: however a run ends, it removes nothing: every directory and every
    file that was there is still there; the only directories it can add are
    the target directory and the directories above it; and every file other
    than those of the listed names has the content it had. *)
Theorem run_removes_nothing
    denied (names : list string) (w w' : world) (r : result unit) :
  generate_files_for denied names w = (r, w') →
  fs_dirs w ⊆ fs_dirs w'
  ∧ fs_dirs w' ⊆ fs_dirs w ∪ list_to_set (segments TARGET_DIR)
  ∧ (∀ p, is_Some (fs_files w !! p) → is_Some (fs_files w' !! p))
  ∧ (∀ p, p ∉ map file_path names → fs_files w' !! p = fs_files w !! p).
Proof.
  intros H.
  assert (Hd : fs_dirs w ⊆ fs_dirs (prepared w)
               ∧ fs_dirs (prepared w)
                 ⊆ fs_dirs w ∪ list_to_set (segments TARGET_DIR)).
  { rewrite dirs_prepared. destruct (target_exists w); set_solver. }
  apply run_outcome in H as [(_ & _ & _ & ->)|(_ & r0 & w0 & Hl & H)].
  { change (fs_dirs (log_syscall (Makedirs TARGET_DIR) w)) with (fs_dirs w).
    change (fs_files (log_syscall (Makedirs TARGET_DIR) w)) with (fs_files w).
    split; [done|]. split; [apply union_subseteq_l|]. by split. }
  assert (Hw : w' = log_line COMPLETE w0 ∨ w' = w0).
  { destruct H as [(_ & _ & ->)|(e & _ & _ & ->)]; [by left|by right]. }
  assert (Hgoal :
    fs_dirs w0 = fs_dirs (prepared w)
    ∧ (∀ p, is_Some (fs_files w !! p) → is_Some (fs_files w0 !! p))
    ∧ (∀ p, p ∉ map file_path names → fs_files w0 !! p = fs_files w !! p)).
  { apply loop_outcome in Hl
      as [[_ ->]|(prev & n & rest & op & attempt & -> & _ & Hs)].
    - rewrite dirs_generated_all. split; [done|]. split.
      + intros p Hp. apply files_generated_all_some. by rewrite files_prepared.
      + intros p Hp. by rewrite files_generated_all_other, files_prepared.
    - pose proof (stopped_world _ _ _ _ _ _ Hs) as (_ & _ & _ & _ & _ & _ & Hdn & Hf).
      rewrite Hdn, dirs_generated_all. split; [done|]. split.
      + intros p Hp. apply (stopped_keeps_files _ _ _ _ _ _ _ Hs).
        apply files_generated_all_some. by rewrite files_prepared.
      + intros p Hp. rewrite map_app in Hp. rewrite Hf.
        * rewrite files_generated_all_other, files_prepared; [done|].
          intros Hin. apply Hp. apply elem_of_app. by left.
        * intros ->. apply Hp. apply elem_of_app. right. by left. }
  destruct Hgoal as (Hdw & Hsome & Hframe), Hd as [Hd1 Hd2].
  destruct Hw as [-> | ->]; simpl; rewrite Hdw; done.
Qed.

Lemma run_removes_nothing_witness :
  let denied := refusing (is_open_of (file_path "badge")) in
  let w := World ∅ {[ "notes.txt" := "keep me" ]} [] [] in
  let w' := (generate_files denied w).2 in
  fs_dirs w ⊆ fs_dirs w'
  ∧ fs_dirs w' ⊆ fs_dirs w ∪ list_to_set (segments TARGET_DIR)
  ∧ (∀ p, is_Some (fs_files w !! p) → is_Some (fs_files w' !! p))
  ∧ (∀ p, p ∉ map file_path COMPONENTS → fs_files w' !! p = fs_files w !! p).
Proof.
  intros denied w w'.
  apply (run_removes_nothing denied COMPONENTS w w'
           (inl (OSError (OpenW (file_path "badge"))))).
  apply run_eta. vm_compute. reflexivity.
Defined.

(** X13: when the target directory is missing and its creation is not
    refused, the first call of the run creates it, the first line printed
    tells so, and the directory and the four directories above it are there
    afterwards, also when the run stops later at a file. *)
Theorem directory_is_created_first
    denied (names : list string) (w w' : world) (r : result unit) :
  target_exists w = false →
  denied w (Makedirs TARGET_DIR) = false →
  generate_files_for denied names w = (r, w') →
  (∃ later, syscalls w' = syscalls w ++ Makedirs TARGET_DIR :: later)
  ∧ (∃ later, console w'
              = console w ++ ("Created directory: " +:+ TARGET_DIR) :: later)
  ∧ ∀ d, d ∈ [ "examples"; "examples/deepyr_example";
               "examples/deepyr_example/lib";
               "examples/deepyr_example/lib/pages"; TARGET_DIR ] →
         d ∈ fs_dirs w'.
Proof.
  intros Ht Hd H.
  apply run_outcome in H as [(_ & Hd' & _)|(_ & r0 & w0 & Hl & H)]; [congruence|].
  assert (Hw0 :
    (∃ later, syscalls w0 = syscalls (prepared w) ++ later)
    ∧ (∃ later, console w0 = console (prepared w) ++ later)
    ∧ fs_dirs w0 = fs_dirs (prepared w)).
  { apply loop_outcome in Hl
      as [[_ ->]|(prev & n & rest & op & attempt & -> & _ & Hs)].
    - rewrite syscalls_generated_all, console_generated_all, dirs_generated_all.
      by eauto.
    - apply stopped_world in Hs as (_ & _ & _ & _ & -> & -> & -> & _).
      rewrite syscalls_generated_all, console_generated_all, dirs_generated_all.
      rewrite <- app_assoc. by eauto. }
  destruct Hw0 as ([ls Hs] & [lc Hc] & Hdirs).
  assert (Hw : (syscalls w' = syscalls w0
                ∧ (console w' = console w0 ∨ console w' = console w0 ++ [COMPLETE]))
               ∧ fs_dirs w' = fs_dirs w0).
  { destruct H as [(_ & _ & ->)|(e & _ & _ & ->)]; simpl; eauto. }
  destruct Hw as [[-> Hcw] ->].
  rewrite Hs, Hdirs, syscalls_prepared, dirs_prepared.
  unfold dir_calls. rewrite Ht. split; [|split].
  - exists ls. by rewrite <- app_assoc.
  - rewrite console_prepared in Hc. unfold dir_lines in Hc. rewrite Ht in Hc.
    destruct Hcw as [-> | ->]; rewrite Hc, <- !app_assoc; simpl; by eexists.
  - intros d Hin. apply elem_of_union. right. apply elem_of_list_to_set.
    by rewrite segments_target.
Qed.

Lemma directory_is_created_first_witness :
  let denied := refusing (is_open_of (file_path "alert")) in
  let w' := (generate_files denied empty_world).2 in
  (∃ later, syscalls w' = syscalls empty_world ++ Makedirs TARGET_DIR :: later)
  ∧ (∃ later, console w'
              = console empty_world
                ++ ("Created directory: " +:+ TARGET_DIR) :: later)
  ∧ ∀ d, d ∈ [ "examples"; "examples/deepyr_example";
               "examples/deepyr_example/lib";
               "examples/deepyr_example/lib/pages"; TARGET_DIR ] →
         d ∈ fs_dirs w'.
Proof.
  intros denied w'.
  apply (directory_is_created_first denied COMPONENTS empty_world w'
           (inl (OSError (OpenW (file_path "alert"))))).
  - reflexivity.
  - reflexivity.
  - apply run_eta. vm_compute. reflexivity.
Defined.

(** X14: when a run over distinct names stops at a file, the files of the
    names that come after it in the list are as they were before the run;
    so is the file of the name it stopped at when it was the opening that
    was refused; and the files of the names before it hold their pages. *)
Theorem abort_leaves_later_files
    denied (names : list string) (w w' : world) (e : exn) :
  NoDup names →
  generate_files_for denied names w = (inl e, w') →
  e ≠ OSError (Makedirs TARGET_DIR) →
  ∃ prev n rest,
    names = prev ++ n :: rest
    ∧ (e = OSError (OpenW (file_path n))
       ∨ e = OSError (WriteF (file_path n) (page n)))
    ∧ (∀ m, m ∈ prev → fs_files w' !! file_path m = Some (page m))
    ∧ (∀ m, m ∈ rest → fs_files w' !! file_path m = fs_files w !! file_path m)
    ∧ (e = OSError (OpenW (file_path n)) →
       fs_files w' !! file_path n = fs_files w !! file_path n).
Proof.
  intros Hnd H Hne.
  apply run_outcome in H as [(_ & _ & [= ->] & _)|(_ & r0 & w0 & Hl & H)]; [done|].
  destruct H as [(_ & ? & _)|(e' & -> & [= <-] & ->)]; [done|].
  apply loop_outcome in Hl
    as [[? _]|(prev & n & rest & op & attempt & -> & [= ->] & Hs)]; [done|].
  apply NoDup_app in Hnd as (_ & Hdisj & Hnr).
  apply NoDup_cons in Hnr as [Hn _].
  assert (Hnprev : n ∉ prev).
  { intros Hin. apply (Hdisj n Hin). by left. }
  exists prev, n, rest. split; [done|].
  pose proof (stopped_world _ _ _ _ _ _ Hs) as (_ & _ & _ & _ & _ & _ & _ & Hf).
  split; [by destruct Hs; [left|right]|]. split; [|split].
  - intros m Hm. rewrite Hf.
    + by apply files_generated_all_in.
    + intros Heq%file_path_inj. by subst.
  - intros m Hm. rewrite Hf.
    + rewrite files_generated_all_other, files_prepared; [done|].
      apply file_path_not_in. intros Hin. apply (Hdisj m Hin). by right.
    + intros Heq%file_path_inj. by subst.
  - intros Hop. destruct Hs as [Hd|Ho Hd]; [|done]. simpl.
    rewrite files_generated_all_other, files_prepared; [done|].
    by apply file_path_not_in.
Qed.

Lemma abort_leaves_later_files_witness :
  let denied := refusing (is_open_of (file_path "badge")) in
  let w := World ∅ {[ file_path "card" := "old" ]} [] [] in
  let e := OSError (OpenW (file_path "badge")) in
  let w' := (generate_files denied w).2 in
  ∃ prev n rest,
    COMPONENTS = prev ++ n :: rest
    ∧ (e = OSError (OpenW (file_path n))
       ∨ e = OSError (WriteF (file_path n) (page n)))
    ∧ (∀ m, m ∈ prev → fs_files w' !! file_path m = Some (page m))
    ∧ (∀ m, m ∈ rest → fs_files w' !! file_path m = fs_files w !! file_path m)
    ∧ (e = OSError (OpenW (file_path n)) →
       fs_files w' !! file_path n = fs_files w !! file_path n).
Proof.
  intros denied w e w'.
  apply (abort_leaves_later_files denied COMPONENTS w w' e).
  - apply (bool_decide_unpack _). by vm_compute.
  - apply run_eta. vm_compute. reflexivity.
  - discriminate.
Defined.

(** X15: on the empty list the run opens and writes no file and leaves all
    files as they are; it can only fail at the creation of the directory,
    and when it goes through it prints the two banners, after the line
    about the directory if it created it. *)
Theorem run_on_empty_list denied (w : world) :
  let run := generate_files_for denied [] w in
  fs_files run.2 = fs_files w
  ∧ syscalls run.2 = syscalls w ++ dir_calls w
  ∧ (run.1 = inr tt
     ↔ (target_exists w = false → denied w (Makedirs TARGET_DIR) = false))
  ∧ (run.1 = inr tt →
     console run.2 = console w ++ dir_lines w ++ [STARTING; COMPLETE]).
Proof.
  intros run. destruct run as [r w'] eqn:E. unfold run in E. simpl.
  apply run_outcome in E as [(Ht & Hd & -> & ->)|(Hmk & r0 & w0 & Hl & H)].
  - simpl. unfold dir_calls. rewrite Ht. split; [done|]. split; [done|].
    split; [|done]. split; [done|]. intros Hp. rewrite Hp in Hd; done.
  - simpl in Hl. injection Hl as <- <-.
    destruct H as [(_ & -> & ->)|(e & ? & _)]; [|done].
    change (fs_files (log_line COMPLETE (prepared w))) with (fs_files (prepared w)).
    change (syscalls (log_line COMPLETE (prepared w))) with (syscalls (prepared w)).
    change (console (log_line COMPLETE (prepared w)))
      with (console (prepared w) ++ [COMPLETE]).
    autorewrite with world. split; [done|]. split; [done|]. split; [done|].
    intros _. by rewrite <- !app_assoc.
Qed.

(** ** Placeholders, one at a time *)

Lemma scan_skip (s b : string) : scan (String.length s) (s +:+ b) = scan 0 b.
Proof. induction s as [|c s IH]; [done|]. rewrite str_app_cons. simpl. apply IH. Qed.

Lemma scan_texts_app (a b : string) :
  no_delimiter a = true → scan 0 (a +:+ b) = texts a ++ scan 0 b.
Proof.
  unfold no_delimiter. induction a as [|c a IH]; [done|].
  rewrite str_app_cons. simpl.
  intros [Hc Ha]%andb_prop. apply negb_true_iff, bool_decide_eq_false_1 in Hc.
  destruct (decide (c = "$"%char)); [done|]. by rewrite IH.
Qed.

Lemma span_id_app (k b : string) :
  all_chars id_char k = true → continues_identifier b = false →
  span_id (k +:+ b) = (k, b).
Proof.
  intros Hk Hb. induction k as [|c k IH].
  - rewrite str_app_nil_l. destruct b as [|d b]; [done|].
    cbn [span_id continues_identifier] in *. by rewrite Hb.
  - cbn [all_chars] in Hk. apply andb_prop in Hk as [Hc Hk].
    rewrite str_app_cons. cbn [span_id]. by rewrite Hc, (IH Hk).
Qed.

Lemma match_id_app (k b : string) :
  is_identifier k = true → continues_identifier b = false →
  match_id (k +:+ b) = Some (k, b).
Proof.
  destruct k as [|c k]; [done|]. cbn [is_identifier].
  intros [Hc Hk]%andb_prop Hb.
  rewrite str_app_cons. cbn [match_id]. rewrite Hc.
  assert (Hic : id_char c = true) by (unfold id_char; by rewrite Hc).
  f_equal. rewrite <- str_app_cons. apply span_id_app; [|done].
  cbn [all_chars]. by rewrite Hic.
Qed.

Lemma match_after_delimiter_id (c : ascii) (s : string) :
  id_start c = true →
  match_after_delimiter (String c s)
  = match match_id (String c s) with
    | Some (i, _) => (MNamed i, String.length i)
    | None => (MInvalid, 0)
    end.
Proof. intros Hc. by destruct c as [[] [] [] [] [] [] [] []]. Qed.

Lemma scan_braced (k b : string) :
  is_identifier k = true →
  scan 0 ("${" +:+ k +:+ "}" +:+ b) = Match (MBraced k) :: scan 0 b.
Proof.
  intros Hk.
  change ("${" +:+ k +:+ "}" +:+ b) with (String "$" (String "{" (k +:+ "}" +:+ b))).
  cbn [scan]. destruct (decide ("$"%char = "$"%char)); [|done].
  cbn [match_after_delimiter].
  rewrite (match_id_app k ("}" +:+ b) Hk eq_refl).
  change ("}" +:+ b) with (String "}" b). cbn iota beta.
  f_equal. replace (String.length k + 2) with (S (String.length (k +:+ "}"))).
  - cbn [scan]. rewrite <- (scan_skip (k +:+ "}") b). by rewrite str_app_assoc.
  - rewrite str_length_app. simpl. lia.
Qed.

Lemma scan_named (k b : string) :
  is_identifier k = true → continues_identifier b = false →
  scan 0 ("$" +:+ k +:+ b) = Match (MNamed k) :: scan 0 b.
Proof.
  intros Hk Hb.
  change ("$" +:+ k +:+ b) with (String "$" (k +:+ b)).
  cbn [scan]. destruct (decide ("$"%char = "$"%char)); [|done].
  destruct k as [|c k]; [done|].
  pose proof Hk as Hk'. cbn [is_identifier] in Hk'.
  apply andb_prop in Hk' as [Hc _].
  rewrite str_app_cons, (match_after_delimiter_id c _ Hc), <- str_app_cons.
  rewrite (match_id_app _ b Hk Hb). f_equal. apply scan_skip.
Qed.

Lemma re_sub_placeholder m (a k : string) (mo : match_obj) (ps : list piece) :
  mo = MNamed k ∨ mo = MBraced k →
  re_sub (convert m) (texts a ++ Match mo :: ps)
  = rendered_placeholder m a k (re_sub (convert m) ps).
Proof.
  intros Hmo. rewrite re_sub_texts. unfold rendered_placeholder.
  assert (Hc : convert m mo = match m !! k with
                              | Some v => inr v
                              | None => inl (KeyError k)
                              end) by (by destruct Hmo as [-> | ->]).
  cbn [re_sub]. rewrite Hc. destruct (m !! k); [|done].
  by destruct (re_sub (convert m) ps).
Qed.

(** X17: rendering goes through a template one placeholder at a time.  A
    text without delimiter, then a placeholder for an identifier, then a
    rest, render to the text, the value bound to the identifier and the
    rendering of the rest; if the identifier is not bound the result is the
    missing-key error for it, whatever the rest is.  This holds for the
    placeholder written between braces, and for the one written without
    them when the rest does not go on with a character of identifiers. *)
Theorem substitute_placeholder
    (mapping : gmap string string) (a k b : string) :
  no_delimiter a = true →
  is_identifier k = true →
  substitute (a +:+ "${" +:+ k +:+ "}" +:+ b) mapping
  = rendered_placeholder mapping a k (substitute b mapping)
  ∧ (continues_identifier b = false →
     substitute (a +:+ "$" +:+ k +:+ b) mapping
     = rendered_placeholder mapping a k (substitute b mapping)).
Proof.
  intros Ha Hk. unfold substitute. split.
  - rewrite (scan_texts_app a _ Ha), (scan_braced k b Hk).
    apply re_sub_placeholder. by right.
  - intros Hb. rewrite (scan_texts_app a _ Ha), (scan_named k b Hk Hb).
    apply re_sub_placeholder. by left.
Qed.

Lemma substitute_placeholder_witness :
  substitute ("class " +:+ "${" +:+ "name" +:+ "}" +:+ "Page {}")
             {[ "name" := "Badge" ]}
  = rendered_placeholder {[ "name" := "Badge" ]} "class " "name"
      (substitute "Page {}" {[ "name" := "Badge" ]})
  ∧ (continues_identifier "Page {}" = false →
     substitute ("class " +:+ "$" +:+ "name" +:+ "Page {}")
                {[ "name" := "Badge" ]}
     = rendered_placeholder {[ "name" := "Badge" ]} "class " "name"
         (substitute "Page {}" {[ "name" := "Badge" ]})).
Proof.
  apply (substitute_placeholder {[ "name" := "Badge" ]} "class " "name" "Page {}");
    reflexivity.
Defined.

(** ** Templates that render *)

Lemma scan_char (c : ascii) (t : string) :
  c ≠ "$"%char → scan 0 (String c t) = Text c :: scan 0 t.
Proof. intros Hc. cbn [scan]. by destruct (decide (c = "$"%char)). Qed.

Lemma scan_escape (t : string) :
  scan 0 ("$$" +:+ t) = Match MEscaped :: scan 0 t.
Proof. done. Qed.

Lemma renders_substitute m t r : renders m t r → substitute t m = inr r.
Proof.
  unfold substitute. induction 1 as [|c t r Hc _ IH|t r _ IH|k v t r Hk Hm _ IH
                                      |k v t r Hk Hb Hm _ IH].
  - done.
  - rewrite (scan_char c t Hc). cbn [re_sub]. by rewrite IH.
  - rewrite scan_escape. cbn [re_sub convert]. by rewrite IH.
  - rewrite (scan_braced k t Hk). cbn [re_sub convert]. by rewrite Hm, IH.
  - rewrite (scan_named k t Hk Hb). cbn [re_sub convert]. by rewrite Hm, IH.
Qed.

Lemma span_id_spec (s i r : string) :
  span_id s = (i, r) →
  s = i +:+ r ∧ all_chars id_char i = true ∧ continues_identifier r = false.
Proof.
  revert i r. induction s as [|c s IH]; intros i r; cbn [span_id].
  - by intros [= <- <-].
  - destruct (id_char c) eqn:Hc.
    + destruct (span_id s) as [i' r'] eqn:E. intros [= <- <-].
      destruct (IH i' r' eq_refl) as (-> & Hi & Hr).
      split; [done|]. split; [|done]. cbn [all_chars]. by rewrite Hc, Hi.
    + intros [= <- <-]. split; [done|]. split; [done|]. exact Hc.
Qed.

Lemma match_id_spec (s i r : string) :
  match_id s = Some (i, r) →
  s = i +:+ r ∧ is_identifier i = true ∧ continues_identifier r = false.
Proof.
  destruct s as [|c s]; [done|]. cbn [match_id].
  destruct (id_start c) eqn:Hc; [|done]. intros Heq.
  assert (H : span_id (String c s) = (i, r)) by congruence. clear Heq.
  assert (Hic : id_char c = true) by (unfold id_char; by rewrite Hc).
  destruct (span_id_spec _ _ _ H) as (Hs & Hi & Hr).
  split; [done|]. split; [|done].
  destruct i as [|c' i].
  - cbn [span_id] in H. rewrite Hic in H. by destruct (span_id s).
  - rewrite str_app_cons in Hs. injection Hs as <- _.
    cbn [is_identifier all_chars] in *. rewrite Hc.
    by apply andb_prop in Hi as [_ ->].
Qed.

Lemma match_after_delimiter_other (c : ascii) (s : string) :
  c ≠ "$"%char → c ≠ "{"%char →
  match_after_delimiter (String c s)
  = match match_id (String c s) with
    | Some (i, _) => (MNamed i, String.length i)
    | None => (MInvalid, 0)
    end.
Proof. intros H1 H2. by destruct c as [[] [] [] [] [] [] [] []]. Qed.

(** What can follow a delimiter. *)
Lemma after_delimiter (s : string) :
  (∃ t, s = String "$" t)
  ∨ (∃ k t, s = "{" +:+ k +:+ "}" +:+ t ∧ is_identifier k = true)
  ∨ (∃ k t, s = k +:+ t ∧ is_identifier k = true
            ∧ continues_identifier t = false)
  ∨ match_after_delimiter s = (MInvalid, 0).
Proof.
  destruct s as [|c s]; [by do 3 right|].
  destruct (decide (c = "$"%char)) as [->|H1]; [left; by eexists|].
  destruct (decide (c = "{"%char)) as [->|H2].
  - cbn [match_after_delimiter].
    destruct (match_id s) as [[i [|d r]]|] eqn:E; [by do 3 right| |by do 3 right].
    destruct (decide (d = "}"%char)) as [->|Hd].
    + right. left. apply match_id_spec in E as (-> & Hi & _). by exists i, r.
    + do 3 right. by destruct d as [[] [] [] [] [] [] [] []].
  - rewrite (match_after_delimiter_other c s H1 H2).
    destruct (match_id (String c s)) as [[i r]|] eqn:E; [|by do 3 right].
    right. right. left. apply match_id_spec in E as (Hs & Hi & Hr).
    by exists i, r.
Qed.

Lemma substitute_renders m t r : substitute t m = inr r → renders m t r.
Proof.
  unfold substitute.
  assert (Hgen : ∀ n t r, String.length t ≤ n →
            re_sub (convert m) (scan 0 t) = inr r → renders m t r).
  { clear t r. induction n as [|n IH]; intros t r Hn H.
    { destruct t; [|simpl in Hn; lia]. injection H as <-. constructor. }
    destruct t as [|c t]; [injection H as <-; constructor|].
    simpl in Hn. destruct (decide (c = "$"%char)) as [->|Hc].
    - destruct (after_delimiter t)
        as [[t' ->]|[(k & t' & -> & Hk)|[(k & t' & -> & Hk & Hb)|Hinv]]].
      + change (String "$" (String "$" t')) with ("$$" +:+ t') in *.
        rewrite scan_escape in H. cbn [re_sub convert] in H.
        destruct (re_sub (convert m) (scan 0 t')) as [e|r'] eqn:E; [done|].
        injection H as <-. apply (renders_escape m t' r').
        apply (IH t' r'); [|done]. simpl in Hn. lia.
      + change (String "$" ("{" +:+ k +:+ "}" +:+ t'))
          with ("${" +:+ k +:+ "}" +:+ t') in *.
        rewrite (scan_braced k t' Hk) in H. cbn [re_sub convert] in H.
        destruct (m !! k) as [v|] eqn:Hm; [|done].
        destruct (re_sub (convert m) (scan 0 t')) as [e|r'] eqn:E; [done|].
        injection H as <-. apply (renders_braced m k v t' r'); [done..|].
        apply (IH t' r'); [|done].
        rewrite !str_length_app in Hn. simpl in Hn. lia.
      + change (String "$" (k +:+ t')) with ("$" +:+ k +:+ t') in *.
        rewrite (scan_named k t' Hk Hb) in H. cbn [re_sub convert] in H.
        destruct (m !! k) as [v|] eqn:Hm; [|done].
        destruct (re_sub (convert m) (scan 0 t')) as [e|r'] eqn:E; [done|].
        injection H as <-. apply (renders_named m k v t' r'); [done..|].
        apply (IH t' r'); [|done].
        rewrite !str_length_app in Hn. simpl in Hn. lia.
      + cbn [scan] in H. destruct (decide ("$"%char = "$"%char)); [|done].
        rewrite Hinv in H. done.
    - rewrite (scan_char c t Hc) in H. cbn [re_sub] in H.
      destruct (re_sub (convert m) (scan 0 t)) as [e|r'] eqn:E; [done|].
      injection H as <-. apply renders_char; [done|].
      apply (IH t r'); [lia|done]. }
  by apply (Hgen (String.length t)).
Qed.

Lemma match_after_delimiter_stray (b : string) :
  stray b = true → match_after_delimiter b = (MInvalid, 0).
Proof.
  destruct b as [|c b]; [done|]. cbn [stray].
  intros [[H1 H2]%andb_prop H3]%andb_prop.
  apply negb_true_iff, bool_decide_eq_false_1 in H1, H2.
  apply negb_true_iff in H3.
  rewrite (match_after_delimiter_other c b H1 H2). cbn [match_id]. by rewrite H3.
Qed.

(** X7: rendering returns a text exactly when the template reads, from left
    to right, as plain characters, doubled delimiters and placeholders,
    with or without braces, for identifiers that the mapping binds, and
    the text is then made of these characters, one delimiter for each
    doubled one, and the bound values, in this order.  A delimiter after
    which neither an escape nor a placeholder starts makes the rendering
    fail with a [ValueError], whatever the mapping, when no delimiter comes
    before it. *)
Theorem substitute_succeeds_iff (template : string) (mapping : gmap string string) :
  (∀ r, substitute template mapping = inr r ↔ renders mapping template r)
  ∧ ∀ a b, template = a +:+ "$" +:+ b →
           no_delimiter a = true → stray b = true →
           ∃ msg, substitute template mapping = inl (ValueError msg).
Proof.
  split.
  - intros r. split; [apply substitute_renders | apply renders_substitute].
  - intros a b -> Ha Hb. unfold substitute.
    rewrite (scan_texts_app a _ Ha).
    change ("$" +:+ b) with (String "$" b). cbn [scan].
    destruct (decide ("$"%char = "$"%char)); [|done].
    rewrite (match_after_delimiter_stray b Hb), re_sub_texts.
    cbn [re_sub convert]. by eexists.
Qed.
